(** * The network node of lib/network/index.js

    A shallow embedding of [Network] (the renter/farmer node facade): the
    message-authentication hooks, the [join]/[leave] life cycle, [store] and
    its pending-contract continuation, [retrieve] and [audit].

    Conventions.
    - A JavaScript object used as a map is an association list that keeps the
      insertion order of its keys, because [Object.keys(o)[0]] is observable
      in [audit] and [retrieve]. The keys are node IDs and shard hashes, 40
      hex digits each and so never array indices, which JavaScript would
      enumerate first.
    - Node callbacks become return values: an operation returns what it hands
      to its callback, or the exception it throws.
    - Whatever the node learns from outside (the clock, the router, the remote
      peer, the disk) is an argument of the operation that asks for it.
    - Libraries that are not part of this file's source (bitcore, kad, ms,
      url, and the sibling modules of lib/) are the fields of the class
      [Externals]; every statement below holds for all of them. *)

From Stdlib Require Import List String Ascii ZArith NArith Bool Lia DecimalString.
From Stdlib.Strings Require Import Byte.
Import ListNotations.

Local Open Scope string_scope.
Local Open Scope Z_scope.

(** ** JavaScript objects as ordered maps *)

Module JsObject.

Section Obj.
Context {V : Type}.

Definition t := list (string * V).

Definition empty : t := [].

(** [o[k]] *)
Fixpoint get (k : string) (o : t) : option V :=
  match o with
  | [] => None
  | (k', v) :: r => if String.eqb k k' then Some v else get k r
  end.

(** [o[k] = v]: an existing key keeps its place, a new one goes last. *)
Fixpoint set (k : string) (v : V) (o : t) : t :=
  match o with
  | [] => [(k, v)]
  | (k', v') :: r =>
      if String.eqb k k' then (k, v) :: r else (k', v') :: set k v r
  end.

(** [Object.keys(o)] *)
Definition keys (o : t) : list string := map fst o.

(** [for (var k in o)] visits the values in key order. *)
Definition values (o : t) : list V := map snd o.
End Obj.

Arguments t V : clear implicits.

(** What an assignment does to the list of keys, whatever the values are. *)
Fixpoint add_key (k : string) (ks : list string) : list string :=
  match ks with
  | [] => [k]
  | k' :: r => if String.eqb k k' then k :: r else k' :: add_key k r
  end.

End JsObject.

(** ** Buffers and their hex form *)

Module Hex.

Definition digit (n : N) : ascii :=
  ascii_of_N (if (n <? 10)%N then 48 + n else 87 + n)%N.

Definition value (c : ascii) : option N :=
  let n := N_of_ascii c in
  if ((48 <=? n) && (n <=? 57))%N then Some (n - 48)%N
  else if ((97 <=? n) && (n <=? 102))%N then Some (n - 87)%N
  else if ((65 <=? n) && (n <=? 70))%N then Some (n - 55)%N
  else None.

Definition of_byte (b : byte) : string :=
  String (digit (Byte.to_N b / 16)) (String (digit (Byte.to_N b mod 16)) "").

(** [buf.toString('hex')] *)
Fixpoint encode (bs : list byte) : string :=
  match bs with
  | [] => ""
  | b :: r => of_byte b ++ encode r
  end.

(** [new Buffer(s, 'hex')]; [None] where the string is not hex. *)
Fixpoint decode (s : string) : option (list byte) :=
  match s with
  | "" => Some []
  | String _ "" => None
  | String c1 (String c2 r) =>
      match value c1, value c2, decode r with
      | Some h, Some l, Some bs =>
          option_map (fun b => b :: bs) (Byte.of_N (16 * h + l))
      | _, _, _ => None
      end
  end.

End Hex.

(** ** Errors *)

(** The [Error] objects the node passes to a callback. *)
Inductive Error : Type :=
| MessageSignatureExpired          (* 'Message signature expired' *)
| SignatureVerificationFailed      (* 'Signature verification failed' *)
| CouldNotFindTheFarmer            (* 'Could not find the farmer' *)
| InvalidProofReturned             (* 'Invalid proof returned' *)
| InvalidShardReturned             (* 'Invalid shard returned' *)
| ResponseError (message : string) (* new Error(response.error.message) *)
| External (message : string)      (* the err of the router or the transport *)
| StorageError.                    (* the err of the manager *)

(** What is thrown instead of being passed to a callback. *)
Inductive Exception : Type :=
| AssertionError (message : string)
| TypeError
| InvalidContact.                  (* the assertions of kad's contact *)

Definition AlreadyOpen : Exception :=
  AssertionError "Network interface already open".

(** ** Collaborators *)

Record Contact : Type := mkContact
  { address : option string; port : Z; nodeID : string }.

(** [url.parse(uri)]: the three components [_createContact] reads. *)
Record ParsedUrl : Type := mkParsedUrl
  { hostname : option string; url_port : option Z; path : option string }.

(** The private audit record kept by the renter. *)
Record PrivateRecord : Type := mkPrivateRecord
  { challenges : list string; root : string; depth : Z }.

(** What [ms(duration)] gives: a whole number of milliseconds, a number
    that is not whole, or [undefined] for a string it cannot read. *)
Inductive MsValue : Type :=
| MsInteger (d : Z)
| MsFraction
| MsUndefined.

Class Externals : Type :=
  { (* bitcore-lib and bitcore-message *)
    PublicKey : Type;
    Signature : Type;
    Digest : Type;
    (** [Signature.fromCompact(new Buffer(s, 'base64'))], which throws on a
        buffer that is no compact signature. *)
    Signature_fromCompact : string -> option Signature;
    (** [Message(target).magicHash()] *)
    magicHash : string -> Digest;
    (** [ECDSA#toPublicKey] with [hashbuf] and [sig] set: public-key
        recovery, which throws when the signature recovers no key. *)
    toPublicKey : Digest -> Signature -> option PublicKey;
    (** ripemd160(sha256(pubkey)): the hash an address is made of. *)
    hash160 : PublicKey -> list byte;
    (** [ECDSA.verify(hashbuf, sig, pubkey)] *)
    ecdsa_verify : Digest -> Signature -> PublicKey -> bool;
    (* lib/constants *)
    NONCE_EXPIRE : Z;
    (* lib/utils *)
    rmd160sha256 : list byte -> string;
    (* JavaScript's [a > s] for a number and a string, which is read as a
       number first *)
    number_gt_string : Z -> string -> bool;
    (* JavaScript's [now > a + x] and [String(x)] for a number [x] that is
       not a whole number, or too large for [String] to give its digits,
       named by its JSON text *)
    number_gt_sum : Z -> Z -> string -> bool;
    Number_toString : string -> string;
    (* ms *)
    ms : string -> MsValue;
    (* url: [port] is a string of digits or null, given here as the number
       [Number(parsed.port)] reads from it *)
    url_parse : string -> ParsedUrl;
    (* kad: the contact constructor asserts a string address, a numeric port
       and a well-formed node ID *)
    AddressPortContact : option string -> Z -> string -> option Contact;
    (* lib/contract *)
    Contract_DEFAULTS_type : string;
    (* lib/audit: the tree is built over the shard from fresh random
       challenges; lib/verification checks a proof against root and depth *)
    Audit : Type;
    PublicRecord : Type;
    Proof_ : Type;
    Audit_new : nat -> list byte -> list byte -> Audit;
    getPublicRecord : Audit -> PublicRecord;
    getPrivateRecord : Audit -> PrivateRecord;
    Verification_verify : Proof_ -> string -> Z -> bool }.

(** ** Messages *)

(** A JSON value as it may arrive under [__nonce]. [JsonNumber] is a
    whole number whose digits [String] gives, as every nonce [_signMessage]
    writes is; any other number is [JsonOtherNumber], with the text it came
    in; an array or an object acts under [+] exactly as its string form
    does and is that string here; a field that is missing reads
    [undefined]. *)
Inductive JsonValue : Type :=
| JsonNumber (n : Z)
| JsonOtherNumber (literal : string)
| JsonString (s : string)
| JsonBool (b : bool)
| JsonNull
| JsonMissing.

(** The signed envelope inside [params] or [result]: whatever the sender
    put under [__nonce], and the signature. *)
Record Body : Type := mkBody { __nonce : JsonValue; __signature : string }.

(** A [kad.Message] as the hooks see it; it is a request when it has a
    method. *)
Record Message : Type := mkMessage
  { id : string; method : option string; params : Body; result : Body }.

Definition isRequest (m : Message) : bool :=
  match method m with Some _ => true | None => false end.

(** [String(n)] for an integer. *)
Definition decimal (n : Z) : string := NilZero.string_of_int (Z.to_int n).

(** [a + v] for a number [a]: a sum when [v] is a number, a boolean or
    [null], a concatenation when it is a string, [NaN] when it is
    [undefined]. *)
Inductive JsSum : Type :=
| SumNumber (z : Z)
| SumOther (a : Z) (literal : string)
| SumString (s : string)
| SumNaN.

Definition js_plus (a : Z) (v : JsonValue) : JsSum :=
  match v with
  | JsonNumber n => SumNumber (a + n)
  | JsonOtherNumber literal => SumOther a literal
  | JsonString s => SumString (decimal a ++ s)
  | JsonBool b => SumNumber (a + if b then 1 else 0)
  | JsonNull => SumNumber a
  | JsonMissing => SumNaN
  end.

(** How an operation ends: it calls back with a value, calls back with an
    error, or throws. *)
Inductive Outcome (A : Type) : Type :=
| Done (a : A)             (* callback(null, a) *)
| Fail (e : Error)         (* callback(err) *)
| Throw (x : Exception).

Arguments Done {A} a.
Arguments Fail {A} e.
Arguments Throw {A} x.

(** What a collaborator calls back with: [(err, value)]. *)
Inductive Reply (A : Type) : Type :=
| Err (message : string)
| Ok (a : A).

Arguments Err {A} message.
Arguments Ok {A} a.

Section MessageAuth.
Context {E : Externals}.

(** [now > x] for the clock reading [now]. The clock and the sums it is
    compared with are whole numbers; between a whole number within the
    exact range of a double and a sum rounded to a double, [>] decides as it
    does between the exact values. *)
Definition js_gt (now : Z) (x : JsSum) : bool :=
  match x with
  | SumNumber z => now >? z
  | SumOther a literal => number_gt_sum now a literal
  | SumString s => number_gt_string now s
  | SumNaN => false
  end.

(** [s + v] for a string [s] appends [String(v)]. *)
Definition js_text (v : JsonValue) : string :=
  match v with
  | JsonNumber n => decimal n
  | JsonOtherNumber literal => Number_toString literal
  | JsonString s => s
  | JsonBool b => if b then "true" else "false"
  | JsonNull => "null"
  | JsonMissing => "undefined"
  end.

(** [bitcore.Address.fromPublicKeyHash(Buffer(nodeID, 'hex'))]: an address
    of the default network and type is its 20-byte hash; anything else
    throws. *)
Definition Address_fromPublicKeyHash (node_id : string) : option (list byte) :=
  match Hex.decode node_id with
  | Some h => if Nat.eqb (List.length h) 20 then Some h else None
  | None => None
  end.

(** [Message(target).verify(addr, signature)] of bitcore-message: recover
    the key, compare the address it hashes to with [addr], then check the
    signature under the recovered key. The two steps that can throw have
    already succeeded on the same inputs when the hook gets here. *)
Definition Message_verify (target : string) (addr : list byte)
    (signature : string) : bool :=
  match Signature_fromCompact signature with
  | None => false
  | Some sig =>
      match toPublicKey (magicHash target) sig with
      | None => false
      | Some pk =>
          if list_eq_dec Byte.byte_eq_dec addr (hash160 pk)
          then ecdsa_verify (magicHash target) sig pk
          else false
      end
  end.

(** [Network.prototype._verifyMessage], on the cache [_pubkeys], at clock
    reading [now]. *)
Definition _verifyMessage (_pubkeys : JsObject.t PublicKey) (now : Z)
    (message : Message) (contact : Contact)
    : Outcome unit * JsObject.t PublicKey :=
  let body := if isRequest message then params message else result message in
  let nonce := __nonce body in
  let signature := __signature body in
  if js_gt now (js_plus NONCE_EXPIRE nonce) then
    (Fail MessageSignatureExpired, _pubkeys)
  else
    let target := id message ++ js_text nonce in
    match Address_fromPublicKeyHash (nodeID contact) with
    | None => (Throw TypeError, _pubkeys)
    | Some addr =>
        match Signature_fromCompact signature with
        | None => (Throw TypeError, _pubkeys)
        | Some signobj =>
            match toPublicKey (magicHash target) signobj with
            | None => (Throw TypeError, _pubkeys)
            | Some pk =>
                let _pubkeys' := JsObject.set (nodeID contact) pk _pubkeys in
                if negb (Message_verify target addr signature) then
                  (Fail SignatureVerificationFailed, _pubkeys')
                else (Done tt, _pubkeys')
            end
        end
    end.

(** The key the hook recovers from a message: [ecdsa.toPublicKey()]. *)
Definition recovered_pubkey (message : Message) : option PublicKey :=
  let body := if isRequest message then params message else result message in
  match Signature_fromCompact (__signature body) with
  | None => None
  | Some sig =>
      toPublicKey (magicHash (id message ++ js_text (__nonce body))) sig
  end.

Definition nonce_of (message : Message) : JsonValue :=
  __nonce (if isRequest message then params message else result message).

(** The test of the hook: [Date.now() > (constants.NONCE_EXPIRE + nonce)]. *)
Definition expired (now : Z) (message : Message) : bool :=
  js_gt now (js_plus NONCE_EXPIRE (nonce_of message)).

(** The last step of [Message#verify] on a message whose signature
    recovered the key [pk]. *)
Definition ecdsa_verify_recovered (message : Message) (pk : PublicKey) : bool :=
  let body := if isRequest message then params message else result message in
  match Signature_fromCompact (__signature body) with
  | None => false
  | Some sig =>
      ecdsa_verify (magicHash (id message ++ js_text (__nonce body))) sig pk
  end.

End MessageAuth.

(** ** The node *)

(** A JavaScript number as far as it is followed here: a safe integer,
    [NaN], or any other number (a fraction, or a magnitude beyond the safe
    integers, where a double no longer holds every whole number). *)
Inductive JsNumber : Type :=
| Num (z : Z)
| NaN
| OtherNumber.

(** [Number.MAX_SAFE_INTEGER] *)
Definition MAX_SAFE_INTEGER : Z := 2 ^ 53 - 1.

(** [a + b] for a clock reading [a] and what [ms] gave: exact while the sum
    is a safe integer. *)
Definition js_add (a : Z) (b : MsValue) : JsNumber :=
  match b with
  | MsInteger d =>
      if Z.abs (a + d) <=? MAX_SAFE_INTEGER then Num (a + d) else OtherNumber
  | MsFraction => OtherNumber
  | MsUndefined => NaN
  end.

(** Modelled from the spec: the Contract object model (lib/contract is not
    among the sources). A contract holds the fields it was constructed
    with, [get] and [set] read and write a field, [sign] leaves a signature
    and [toObject] gives the same fields as a plain object. The first six
    fields are the ones [store] supplies; the farmer's are unset until a
    farmer sets them. *)
Record Contract : Type := mkContract
  { renter_id : string;
    data_size : Z;
    data_hash : string;
    store_begin : Z;
    store_end : JsNumber;
    audit_count : Z;
    farmer_id : option string;
    payment_destination : option string;
    farmer_signature : option string }.

(** The signing half of bitcore-message under the node's key pair:
    [Message(target).sign(privkey)] is the compact signature in base64. *)
Class Signer : Type :=
  { PrivateKey : Type;
    Message_sign : string -> PrivateKey -> string }.

(** What the farmer's half asks of lib/contract: [Contract.fromObject],
    which throws on an object that is no contract; the signature that
    [contract.sign('farmer', privkey)] leaves; and
    [contract.verify('renter', id)]. *)
Class ContractOps {K : Signer} : Type :=
  { Contract_fromObject : Contract -> option Contract;
    Contract_sign_farmer : Contract -> PrivateKey -> string;
    Contract_verify_renter : Contract -> string -> bool }.

Record Options : Type := mkOptions
  { seeds : list string; farmer : bool }.

(** What [join] registers on the transport, in order. *)
Inductive Hook : Type :=
| on_error_handleTransportError
| before_serialize_signMessage
| before_receive_verifyMessage
| before_receive_protocol.

Section Node.
Context {E : Externals} {K : Signer} {O : ContractOps}.

(** Modelled from the spec: the StorageItem of lib/storage/item (not among
    the sources): the shard hash and four maps keyed by node ID, all empty
    in a new item. *)
Record StorageItem : Type := mkStorageItem
  { hash : string;
    contracts : JsObject.t Contract;
    trees : JsObject.t PublicRecord;
    item_challenges : JsObject.t PrivateRecord;
    meta : JsObject.t unit }.

Definition StorageItem_new (h : string) : StorageItem :=
  {| hash := h;
     contracts := JsObject.empty;
     trees := JsObject.empty;
     item_challenges := JsObject.empty;
     meta := JsObject.empty |}.

(** What the function stored in [_pendingContracts] closes over. *)
Record Pending : Type := mkPending
  { pending_shardHash : string;
    pending_contract : Contract;
    pending_data : list byte;
    pending_audit : Audit }.

(** The instance, with the state of the collaborators it drives: the hooks
    on the transport, the connects in flight, the interval timers of the
    runtime, the pub/sub subscriptions and the items the manager holds. *)
Record Network : Type := mkNetwork
  { _pendingContracts : JsObject.t Pending;
    _options : Options;
    _keypair_nodeID : string;
    _contact : Contact;
    _pubkeys : JsObject.t PublicKey;
    _open : bool;
    _node : bool;
    _pingSeeds : option (JsObject.t nat);
    transport_hooks : list Hook;
    connecting : list Contact;
    intervals : list nat;
    next_interval : nat;
    subscriptions : list string;
    manager : JsObject.t StorageItem }.

(** [new Network(options)] over a key pair with node ID [node_id], a
    contact and the manager's items. *)
Definition Network_new (options : Options) (node_id : string)
    (contact : Contact) (items : JsObject.t StorageItem) : Network :=
  {| _pendingContracts := JsObject.empty;
     _options := options;
     _keypair_nodeID := node_id;
     _contact := contact;
     _pubkeys := JsObject.empty;
     _open := false;
     _node := false;
     _pingSeeds := None;
     transport_hooks := [];
     connecting := [];
     intervals := [];
     next_interval := 0%nat;
     subscriptions := [];
     manager := items |}.

Definition with_pendingContracts (s : Network) (p : JsObject.t Pending) :=
  {| _pendingContracts := p; _options := _options s;
     _keypair_nodeID := _keypair_nodeID s; _contact := _contact s;
     _pubkeys := _pubkeys s; _open := _open s; _node := _node s;
     _pingSeeds := _pingSeeds s; transport_hooks := transport_hooks s;
     connecting := connecting s; intervals := intervals s;
     next_interval := next_interval s; subscriptions := subscriptions s;
     manager := manager s |}.

Definition with_pubkeys (s : Network) (p : JsObject.t PublicKey) :=
  {| _pendingContracts := _pendingContracts s; _options := _options s;
     _keypair_nodeID := _keypair_nodeID s; _contact := _contact s;
     _pubkeys := p; _open := _open s; _node := _node s;
     _pingSeeds := _pingSeeds s; transport_hooks := transport_hooks s;
     connecting := connecting s; intervals := intervals s;
     next_interval := next_interval s; subscriptions := subscriptions s;
     manager := manager s |}.

Definition with_manager (s : Network) (m : JsObject.t StorageItem) :=
  {| _pendingContracts := _pendingContracts s; _options := _options s;
     _keypair_nodeID := _keypair_nodeID s; _contact := _contact s;
     _pubkeys := _pubkeys s; _open := _open s; _node := _node s;
     _pingSeeds := _pingSeeds s; transport_hooks := transport_hooks s;
     connecting := connecting s; intervals := intervals s;
     next_interval := next_interval s; subscriptions := subscriptions s;
     manager := m |}.

Definition with_intervals (s : Network) (l : list nat) :=
  {| _pendingContracts := _pendingContracts s; _options := _options s;
     _keypair_nodeID := _keypair_nodeID s; _contact := _contact s;
     _pubkeys := _pubkeys s; _open := _open s; _node := _node s;
     _pingSeeds := _pingSeeds s; transport_hooks := transport_hooks s;
     connecting := connecting s; intervals := l;
     next_interval := next_interval s; subscriptions := subscriptions s;
     manager := manager s |}.

(** *** Contacts and seeds *)

(** [s.substr(1)] *)
Definition substr1 (s : string) : string :=
  substring 1 (String.length s - 1) s.

(** [Network.prototype._createContact]: reading [parsed.path.substr]
    throws when the URI has no path. *)
Definition _createContact (uri : string) : Exception + Contact :=
  let parsed := url_parse uri in
  match path parsed with
  | None => inl TypeError
  | Some p =>
      match AddressPortContact (hostname parsed)
              (match url_port parsed with Some n => n | None => 0 end)
              (substr1 p) with
      | Some contact => inr contact
      | None => inl InvalidContact
      end
  end.

(** [uris.map(f)], stopping at the first element on which [f] throws. *)
Fixpoint map_throwing {A B : Type} (f : A -> Exception + B) (l : list A)
    : Exception + list B :=
  match l with
  | [] => inr []
  | a :: r =>
      match f a with
      | inl x => inl x
      | inr b =>
          match map_throwing f r with
          | inl x => inl x
          | inr bs => inr (b :: bs)
          end
      end
  end.

(** *** join and leave *)

(** [Network.prototype._farm] as far as the instance is concerned: one
    more subscription to the contract topic. *)
Definition _farm (s : Network) : Network :=
  {| _pendingContracts := _pendingContracts s; _options := _options s;
     _keypair_nodeID := _keypair_nodeID s; _contact := _contact s;
     _pubkeys := _pubkeys s; _open := _open s; _node := _node s;
     _pingSeeds := _pingSeeds s; transport_hooks := transport_hooks s;
     connecting := connecting s; intervals := intervals s;
     next_interval := next_interval s;
     subscriptions := subscriptions s ++ [Contract_DEFAULTS_type];
     manager := manager s |}.

(** [Network.prototype.join]. The seed contacts are built and the
    protocol object is constructed (it only keeps a reference to the
    instance) before the assertion; [async.each] starts one connect per
    seed and, every iteration calling [next()] at once and without an
    error, reaches its final callback in the same turn. *)
Definition join (s : Network) : Outcome unit * Network :=
  match map_throwing _createContact (seeds (_options s)) with
  | inl x => (Throw x, s)
  | inr seed_contacts =>
      if _open s then (Throw AlreadyOpen, s)
      else
        let s1 :=
          {| _pendingContracts := _pendingContracts s;
             _options := _options s;
             _keypair_nodeID := _keypair_nodeID s;
             _contact := _contact s;
             _pubkeys := _pubkeys s;
             _open := true;
             _node := true;
             _pingSeeds := _pingSeeds s;
             transport_hooks :=
               transport_hooks s ++
               [ on_error_handleTransportError;
                 before_serialize_signMessage;
                 before_receive_verifyMessage;
                 before_receive_protocol ];
             connecting := connecting s ++ seed_contacts;
             intervals := intervals s;
             next_interval := next_interval s;
             subscriptions := subscriptions s;
             manager := manager s |} in
        let s2 := if farmer (_options s1) then _farm s1 else s1 in
        (Done tt, s2)
  end.

(** [Network.prototype._addPingInterval]: [setInterval] hands out a new
    timer, kept under the contact's node ID. *)
Definition _addPingInterval (s : Network) (contact : Contact) : Network :=
  let table :=
    match _pingSeeds s with Some t => t | None => JsObject.empty end in
  let timer := next_interval s in
  {| _pendingContracts := _pendingContracts s; _options := _options s;
     _keypair_nodeID := _keypair_nodeID s; _contact := _contact s;
     _pubkeys := _pubkeys s; _open := _open s; _node := _node s;
     _pingSeeds := Some (JsObject.set (nodeID contact) timer table);
     transport_hooks := transport_hooks s;
     connecting := connecting s;
     intervals := intervals s ++ [timer];
     next_interval := S timer;
     subscriptions := subscriptions s;
     manager := manager s |}.

(** The callback [join] gives to [_node.connect(contact, ...)]. *)
Definition connected (s : Network) (contact : Contact)
    (err : option string) : Network :=
  match err with
  | None => _addPingInterval s contact
  | Some _ => s
  end.

(** [clearInterval(id)] *)
Definition clearInterval (timer : nat) (active : list nat) : list nat :=
  filter (fun t => negb (Nat.eqb t timer)) active.

(** [Network.prototype._removePingInterval()], called without a contact:
    every timer of [_pingSeeds] is cleared; the table itself is kept. *)
Definition _removePingInterval (s : Network) : Network :=
  match _pingSeeds s with
  | None => s
  | Some table =>
      with_intervals s
        (fold_left (fun active t => clearInterval t active)
                   (JsObject.values table) (intervals s))
  end.

(** [Network.prototype.leave]: [this._node.disconnect] throws on an
    instance that never joined; otherwise the node disconnects and calls
    back. *)
Definition leave (s : Network) : Outcome unit * Network :=
  let s1 := _removePingInterval s in
  if _node s1 then (Done tt, s1)
  else (Throw TypeError, s1).

(** *** Remote calls *)

(** The requests the renter sends. A challenge that is [undefined] is
    [None]. *)
Inductive Rpc : Type :=
| AUDIT (data_hash : string) (challenge : option string) (contact : Contact)
| RETRIEVE (data_hash : string) (contact : Contact)
| CONSIGN (data_hash : string) (data_shard : string)
          (audit_tree : PublicRecord) (contact : Contact).

(** The [result] of a response: [proof] is an array when present,
    [data_shard] a string. *)
Record ResultBody : Type := mkResultBody
  { proof : option Proof_; data_shard : option string }.

(** A response message: [error.message] when it carries an error. *)
Record Response : Type := mkResponse
  { response_error : option string; response_result : option ResultBody }.

(** Modelled from the spec: the manager of lib/manager (not among the
    sources) keeps one serialized StorageItem per shard hash;
    [self._manager.load(hash, ...)] calls back with an error when there is
    none. *)
Definition Manager_load (items : JsObject.t StorageItem) (h : string)
    : option StorageItem :=
  JsObject.get h items.

(** Modelled from the spec: [self._manager.save(item, ...)], when it
    succeeds, files the item under its shard hash. *)
Definition Manager_save (items : JsObject.t StorageItem)
    (item : StorageItem) : JsObject.t StorageItem :=
  JsObject.set (hash item) item items.

(** [nodes.filter(function(node) { return node.nodeID === farmerID })[0]];
    no node ID is [=== undefined]. *)
Definition pick_farmer (nodes : list Contact) (farmerID : option string)
    : option Contact :=
  match farmerID with
  | None => None
  | Some fid =>
      hd_error (filter (fun node => String.eqb (nodeID node) fid) nodes)
  end.

(** [!s] for a string that may be missing. *)
Definition falsy_string (s : option string) : bool :=
  match s with
  | None => true
  | Some s => String.eqb s ""
  end.

(** The callback [audit] gives to [send], for the private record [audit]
    of the farmer. *)
Definition audit_response (audit : PrivateRecord) (reply : Reply Response)
    : Outcome bool :=
  match reply with
  | Err e => Fail (External e)
  | Ok response =>
      match response_error response with
      | Some m => Fail (ResponseError m)
      | None =>
          match response_result response with
          | None => Throw TypeError
          | Some res =>
              match proof res with
              | None => Fail InvalidProofReturned
              | Some pr =>
                  Done (Verification_verify pr (root audit) (depth audit))
              end
          end
      end
  end.

(** The callback [retrieve] gives to [send]; the shard comes back as the
    buffer of its hex form. *)
Definition retrieve_response (reply : Reply Response) : Outcome (list byte) :=
  match reply with
  | Err e => Fail (External e)
  | Ok response =>
      match response_error response with
      | Some m => Fail (ResponseError m)
      | None =>
          match response_result response with
          | None => Throw TypeError
          | Some res =>
              if falsy_string (data_shard res) then Fail InvalidShardReturned
              else
                match data_shard res with
                | Some hex =>
                    match Hex.decode hex with
                    | Some shard => Done shard
                    | None => Throw TypeError
                    end
                | None => Throw TypeError
                end
          end
      end
  end.

(** [Network.prototype.audit]. [found] is what the router's [findNode]
    calls back with, [reply] what the transport's [send] calls back with
    (looked at only if the message is sent). The result is what the
    callback receives, the messages sent, and the instance afterwards. *)
Definition audit (s : Network) (h : string)
    (found : Reply (list Contact)) (reply : Reply Response)
    : Outcome bool * list (Contact * Rpc) * Network :=
  match Manager_load (manager s) h with
  | None => (Fail StorageError, [], s)
  | Some item =>
      let farmerID := hd_error (JsObject.keys (contracts item)) in
      match found with
      | Err e => (Fail (External e), [], s)
      | Ok nodes =>
          match pick_farmer nodes farmerID with
          | None => (Fail CouldNotFindTheFarmer, [], s)
          | Some farmer =>
              match JsObject.get (nodeID farmer) (item_challenges item) with
              | None => (Throw TypeError, [], s)
              | Some audit =>
                  let message :=
                    AUDIT h (hd_error (challenges audit)) (_contact s) in
                  (audit_response audit reply, [(farmer, message)], s)
              end
          end
      end
  end.

(** [Network.prototype.retrieve] *)
Definition retrieve (s : Network) (h : string)
    (found : Reply (list Contact)) (reply : Reply Response)
    : Outcome (list byte) * list (Contact * Rpc) * Network :=
  match Manager_load (manager s) h with
  | None => (Fail StorageError, [], s)
  | Some item =>
      let farmerID := hd_error (JsObject.keys (contracts item)) in
      match found with
      | Err e => (Fail (External e), [], s)
      | Ok nodes =>
          match pick_farmer nodes farmerID with
          | None => (Fail CouldNotFindTheFarmer, [], s)
          | Some farmer =>
              let message := RETRIEVE h (_contact s) in
              (retrieve_response reply, [(farmer, message)], s)
          end
      end
  end.

(** *** store and its continuation *)

(** [Network.prototype.store], up to the publication. [t1] and [t2] are
    the two readings of [Date.now()], [entropy] the random bytes the audit
    tree draws. The result is the topic and object handed to the pub/sub
    layer. *)
Definition store (s : Network) (data : list byte) (duration : string)
    (t1 t2 : Z) (entropy : list byte)
    : (Exception + string * Contract) * Network :=
  match Hex.decode (Hex.encode data) with
  | None => (inl TypeError, s)
  | Some data =>
      let shardHash := rmd160sha256 data in
      let contract :=
        {| renter_id := _keypair_nodeID s;
           data_size := Z.of_nat (List.length data);
           data_hash := shardHash;
           store_begin := t1;
           store_end := js_add t2 (ms duration);
           audit_count := 12;
           farmer_id := None;
           payment_destination := None;
           farmer_signature := None |} in
      let audit := Audit_new 12 data entropy in
      let pending :=
        {| pending_shardHash := shardHash;
           pending_contract := contract;
           pending_data := data;
           pending_audit := audit |} in
      (inr (Contract_DEFAULTS_type, contract),
       with_pendingContracts s
         (JsObject.set shardHash pending (_pendingContracts s)))
  end.

(** The four assignments of the continuation, under the farmer's ID. *)
Definition record_farmer (item : StorageItem) (p : Pending)
    (farmer : Contact) : StorageItem :=
  {| hash := hash item;
     contracts :=
       JsObject.set (nodeID farmer) (pending_contract p) (contracts item);
     trees :=
       JsObject.set (nodeID farmer) (getPublicRecord (pending_audit p))
                    (trees item);
     item_challenges :=
       JsObject.set (nodeID farmer) (getPrivateRecord (pending_audit p))
                    (item_challenges item);
     meta := JsObject.set (nodeID farmer) tt (meta item) |}.

(** The function [store] leaves in [_pendingContracts], called with the
    farmer that offered. [reply] is the answer to CONSIGN, [save_err] the
    error of [manager.save], if any. *)
Definition consign (s : Network) (p : Pending) (farmer : Contact)
    (reply : Reply Response) (save_err : option string)
    : Outcome string * list (Contact * Rpc) * Network :=
  let message :=
    CONSIGN (data_hash (pending_contract p))
            (Hex.encode (pending_data p))
            (getPublicRecord (pending_audit p))
            (_contact s) in
  let sent := [(farmer, message)] in
  match reply with
  | Err e => (Fail (External e), sent, s)
  | Ok response =>
      match response_error response with
      | Some m => (Fail (ResponseError m), sent, s)
      | None =>
          let item :=
            match Manager_load (manager s) (pending_shardHash p) with
            | Some item => item
            | None => StorageItem_new (pending_shardHash p)
            end in
          let item := record_farmer item p farmer in
          match save_err with
          | Some _ => (Fail StorageError, sent, s)
          | None =>
              (Done (pending_shardHash p), sent,
               with_manager s (Manager_save (manager s) item))
          end
      end
  end.

(** *** The farmer's half *)

(** The OFFER request. *)
Inductive FarmRpc : Type :=
| OFFER (contract : Contract) (contact : Contact).

(** The response to OFFER as the handler reads it: [error.message] when
    it carries an error, and [result.contract] when it carries a result. *)
Record OfferResponse : Type := mkOfferResponse
  { offer_error : option string; offer_result : option (option Contract) }.

(** How the handler of a publication ends: it reached [manager.save], it
    gave up on the way (every [return false]), or it threw. *)
Inductive FarmEnd : Type :=
| Saved
| Dropped
| Crashed (x : Exception).

(** The two assignments of the handler, under the renter's ID. *)
Definition record_renter (item : StorageItem) (contract : Contract)
    (renter : Contact) : StorageItem :=
  {| hash := hash item;
     contracts := JsObject.set (nodeID renter) contract (contracts item);
     trees := trees item;
     item_challenges := item_challenges item;
     meta := JsObject.set (nodeID renter) tt (meta item) |}.

(** The handler [_farm] subscribes, on a decoded contract, under the key
    pair's private key and address. [found] is the router's answer for the
    renter, [reply] the answer to OFFER, [save_err] the error of
    [manager.save], which the handler ignores. The result is how it ended,
    the OFFER it sent, and the instance afterwards. *)
Definition farm_offer (s : Network) (privkey : PrivateKey) (address : string)
    (contract : Contract) (found : Reply (list Contact))
    (reply : Reply OfferResponse) (save_err : option string)
    : FarmEnd * list (Contact * FarmRpc) * Network :=
  let contract :=
    {| renter_id := renter_id contract;
       data_size := data_size contract;
       data_hash := data_hash contract;
       store_begin := store_begin contract;
       store_end := store_end contract;
       audit_count := audit_count contract;
       farmer_id := Some (_keypair_nodeID s);
       payment_destination := Some address;
       farmer_signature := farmer_signature contract |} in
  let contract :=
    {| renter_id := renter_id contract;
       data_size := data_size contract;
       data_hash := data_hash contract;
       store_begin := store_begin contract;
       store_end := store_end contract;
       audit_count := audit_count contract;
       farmer_id := farmer_id contract;
       payment_destination := payment_destination contract;
       farmer_signature := Some (Contract_sign_farmer contract privkey) |} in
  match found with
  | Err _ => (Dropped, [], s)
  | Ok nodes =>
      match pick_farmer nodes (Some (renter_id contract)) with
      | None => (Dropped, [], s)
      | Some renter =>
          let sent := [(renter, OFFER contract (_contact s))] in
          match reply with
          | Err _ => (Dropped, sent, s)
          | Ok response =>
              match offer_error response with
              | Some _ => (Dropped, sent, s)
              | None =>
                  match offer_result response with
                  | None => (Crashed TypeError, sent, s)
                  | Some None => (Dropped, sent, s)
                  | Some (Some countersigned) =>
                      match Contract_fromObject countersigned with
                      | None => (Dropped, sent, s)
                      | Some final =>
                          if negb (Contract_verify_renter final
                                     (renter_id contract))
                          then (Dropped, sent, s)
                          else
                            let item :=
                              match Manager_load (manager s)
                                      (data_hash contract) with
                              | Some item => item
                              | None => StorageItem_new (data_hash contract)
                              end in
                            let item := record_renter item contract renter in
                            match save_err with
                            | Some _ => (Saved, sent, s)
                            | None =>
                                (Saved, sent,
                                 with_manager s
                                   (Manager_save (manager s) item))
                            end
                      end
                  end
              end
          end
      end
  end.

(** The callback [_subscribe] registers for the handler: a publication
    that is no contract is dropped. *)
Definition farm_publication (s : Network) (privkey : PrivateKey)
    (address : string) (publication : Contract)
    (found : Reply (list Contact)) (reply : Reply OfferResponse)
    (save_err : option string)
    : FarmEnd * list (Contact * FarmRpc) * Network :=
  match Contract_fromObject publication with
  | None => (Dropped, [], s)
  | Some contract => farm_offer s privkey address contract found reply save_err
  end.

(** *** The runs of an instance *)

(** One event on the instance: a call of the facade, the verify hook on an
    inbound message, a connect callback, an offer taking up a pending
    contract, or, once [_farm] has subscribed, a published contract
    reaching its handler. *)
Inductive step : Network -> Network -> Prop :=
| step_join s :
    step s (snd (join s))
| step_leave s :
    step s (snd (leave s))
| step_connected s contact err :
    In contact (connecting s) ->
    step s (connected s contact err)
| step_verify s now message contact :
    step s (with_pubkeys s
              (snd (_verifyMessage (_pubkeys s) now message contact)))
| step_store s data duration t1 t2 entropy :
    step s (snd (store s data duration t1 t2 entropy))
| step_offer s h p farmer reply save_err :
    JsObject.get h (_pendingContracts s) = Some p ->
    step s (snd (consign s p farmer reply save_err))
| step_audit s h found reply :
    step s (snd (audit s h found reply))
| step_retrieve s h found reply :
    step s (snd (retrieve s h found reply))
| step_farm s privkey address publication found reply save_err :
    In Contract_DEFAULTS_type (subscriptions s) ->
    step s (snd (farm_publication s privkey address publication found reply
                   save_err)).

Inductive reachable (s0 : Network) : Network -> Prop :=
| reachable_start : reachable s0 s0
| reachable_step s s' : reachable s0 s -> step s s' -> reachable s0 s'.

(** A fresh instance over a manager that holds nothing yet. *)
Definition fresh (options : Options) (node_id : string)
    (contact : Contact) : Network :=
  Network_new options node_id contact JsObject.empty.

(** The seed URIs of an instance all make a contact. *)
Definition seeds_ok (s : Network) : Prop :=
  exists cs, map_throwing _createContact (seeds (_options s)) = inr cs.

(** What an event may do to the life cycle: nothing, or open a closed
    instance whose seeds are well formed. *)
Definition lifecycle_kept (s s' : Network) : Prop :=
  _open s' = _open s /\ _node s' = _node s.

Definition lifecycle_opened (s s' : Network) : Prop :=
  _open s = false /\ _open s' = true /\ _node s' = true /\ seeds_ok s.

(** The invariant behind the open flag: only [join] sets it, after the
    seeds made their contacts and together with the node. *)
Definition open_inv (s : Network) : Prop :=
  _open s = true -> _node s = true /\ seeds_ok s.

(** The four maps of an item list the same node IDs. *)
Definition keys_aligned (item : StorageItem) : Prop :=
  JsObject.keys (trees item) = JsObject.keys (contracts item) /\
  JsObject.keys (item_challenges item) = JsObject.keys (contracts item) /\
  JsObject.keys (meta item) = JsObject.keys (contracts item).

(** What the manager holds is filed under its own hash, with the four maps
    in step. *)
Definition store_inv (s : Network) : Prop :=
  forall h item,
    JsObject.get h (manager s) = Some item ->
    hash item = h /\ keys_aligned item.

(** What the manager holds is filed under its own hash. *)
Definition filed_inv (s : Network) : Prop :=
  forall h item, JsObject.get h (manager s) = Some item -> hash item = h.

(** The stub the farmer's handler writes for [contract] and [renter]. *)
Definition farmed_item (s : Network) (contract : Contract) (renter : Contact)
    : StorageItem :=
  record_renter
    (match Manager_load (manager s) (data_hash contract) with
     | Some item => item
     | None => StorageItem_new (data_hash contract)
     end) contract renter.

(** The item the continuation writes for [p] and [farmer]. *)
Definition consigned_item (s : Network) (p : Pending) (farmer : Contact)
    : StorageItem :=
  record_farmer
    (match Manager_load (manager s) (pending_shardHash p) with
     | Some item => item
     | None => StorageItem_new (pending_shardHash p)
     end) p farmer.

(** The challenge of an AUDIT message. *)
Definition challenge_of (m : Contact * Rpc) : option (option string) :=
  match snd m with
  | AUDIT _ c _ => Some c
  | _ => None
  end.

Definition is_AUDIT (m : Contact * Rpc) : bool :=
  match snd m with
  | AUDIT _ _ _ => true
  | _ => false
  end.
End Node.

(** ** A small instance of the collaborators

    Enough to run the node on concrete inputs: a signature is the hex form
    of the 20-byte hash of the key that made it, so recovery decodes it and
    a key is its own hash. Of the durations it reads two, and of the
    numbers that are not whole it tells -1e400 from the rest. *)

Module Sample.

Definition externals : Externals :=
  {| PublicKey := list byte;
     Signature := string;
     Digest := string;
     Signature_fromCompact := fun s => if String.eqb s "" then None else Some s;
     magicHash := fun target => target;
     toPublicKey := fun _ sig => Hex.decode sig;
     hash160 := fun pk => pk;
     ecdsa_verify := fun _ _ _ => true;
     NONCE_EXPIRE := 15000;
     rmd160sha256 := fun data => Hex.encode (firstn 20 data);
     number_gt_string := fun now s =>
       match NilEmpty.int_of_string s with
       | Some x => now >? Z.of_int x
       | None => false
       end;
     number_gt_sum := fun _ _ literal => String.eqb literal "-1e400";
     Number_toString := fun literal =>
       if String.eqb literal "-1e400" then "-Infinity" else literal;
     ms := fun d =>
       if String.eqb d "1h" then MsInteger 3600000
       else if String.eqb d "0.5ms" then MsFraction
       else MsUndefined;
     url_parse := fun uri =>
       {| hostname := Some "127.0.0.1";
          url_port := Some 4001;
          path := if String.eqb uri "" then None else Some ("/" ++ uri) |};
     AddressPortContact := fun a p n =>
       match a with
       | Some _ => Some {| address := a; port := p; nodeID := n |}
       | None => None
       end;
     Contract_DEFAULTS_type := "contract";
     Audit := list string;
     PublicRecord := nat;
     Proof_ := string;
     Audit_new := fun n _ entropy =>
       map (fun b => Hex.encode [b]) (firstn n entropy);
     getPublicRecord := fun a => List.length a;
     getPrivateRecord := fun a =>
       {| challenges := a; root := "root"; depth := 4 |};
     Verification_verify := fun pr r _ => String.eqb pr r |}.

#[local] Existing Instance externals.

Definition farmer_id : string := "00112233445566778899aabbccddeeff00112233".
Definition other_id : string := "ffeeddccbbaa99887766554433221100ffeeddcc".

Definition farmer_contact : Contact :=
  {| address := Some "127.0.0.1"; port := 4001; nodeID := farmer_id |}.
Definition renter_contact : Contact :=
  {| address := Some "127.0.0.1"; port := 4000; nodeID := other_id |}.

(** A request with nonce [n] carrying the signature [sig]. *)
Definition request (n : Z) (sig : string) : Message :=
  {| id := "abc";
     method := Some "PING";
     params := {| __nonce := JsonNumber n; __signature := sig |};
     result := {| __nonce := JsonNumber 0; __signature := "" |} |}.

Definition a_contract : Contract :=
  mkContract other_id 5 "h" 0 (Num 3600000) 12 None None None.

(** An item for shard "h" held by one farmer, with the challenges given. *)
Definition item_with (cs : list string) : StorageItem :=
  {| hash := "h";
     contracts := [(farmer_id, a_contract)];
     trees := [(farmer_id, List.length cs)];
     item_challenges :=
       [(farmer_id, {| challenges := cs; root := "root"; depth := 4 |})];
     meta := [(farmer_id, tt)] |}.

(** A renter whose manager holds that item. *)
Definition renter_with (cs : list string) : Network :=
  Network_new {| seeds := []; farmer := false |} other_id renter_contact
    [("h", item_with cs)].

Definition proof_reply (pr : string) : Reply Response :=
  Ok {| response_error := None;
        response_result :=
          Some {| proof := Some pr; data_shard := None |} |}.

Definition empty_reply : Reply Response :=
  Ok {| response_error := None;
        response_result :=
          Some {| proof := None; data_shard := None |} |}.

(** A farmer-enabled node with one seed, not yet joined, over an empty
    manager. *)
Definition seeded : Network :=
  fresh {| seeds := [farmer_id]; farmer := true |} other_id renter_contact.


Definition a_pending : Pending :=
  {| pending_shardHash := "h";
     pending_contract := a_contract;
     pending_data := [x68; x65];
     pending_audit := ["c0"; "c1"] |}.

End Sample.

(** ** Signing, and the rest of the node's own operations *)

Section Signing.
Context {E : Externals} {K : Signer}.

(** [Network.prototype._signMessage] under [this._keypair._privkey], at
    clock reading [now]: nonce and signature go into [params] of a request
    and into [result] of a response. *)
Definition _signMessage (privkey : PrivateKey) (now : Z) (message : Message)
    : Message :=
  let nonce := now in
  let target := id message ++ decimal nonce in
  let signature := Message_sign target privkey in
  if isRequest message then
    {| id := id message;
       method := method message;
       params := {| __nonce := JsonNumber nonce; __signature := signature |};
       result := result message |}
  else
    {| id := id message;
       method := method message;
       params := params message;
       result := {| __nonce := JsonNumber nonce; __signature := signature |} |}.

(** What the library promises of a key pair: whatever is signed under the
    private key is a compact signature that recovers the public key and
    verifies under it. *)
Definition signs_for (privkey : PrivateKey) (pk : PublicKey) : Prop :=
  forall target,
  exists sig,
    Signature_fromCompact (Message_sign target privkey) = Some sig /\
    toPublicKey (magicHash target) sig = Some pk /\
    ecdsa_verify (magicHash target) sig pk = true.

End Signing.

Section MoreNode.
Context {E : Externals} {K : Signer} {O : ContractOps}.

(** The signature the verify hook reads, and the string it is checked
    against: [message.id + nonce]. *)
Definition signature_of (message : Message) : string :=
  __signature (if isRequest message then params message else result message).

Definition target_of (message : Message) : string :=
  id message ++ js_text (nonce_of message).

(** The four hooks of [join], in the order of registration. *)
Definition join_hooks : list Hook :=
  [ on_error_handleTransportError;
    before_serialize_signMessage;
    before_receive_verifyMessage;
    before_receive_protocol ].

(** [Network.prototype._removePingInterval(contact)], called with a
    contact: reading [this._pingSeeds[contact.nodeID]] throws while no
    interval was ever set up; [clearInterval(undefined)] does nothing. *)
Definition _removePingInterval_for (s : Network) (contact : Contact)
    : Exception + Network :=
  match _pingSeeds s with
  | None => inl TypeError
  | Some table =>
      match JsObject.get (nodeID contact) table with
      | Some timer => inr (with_intervals s (clearInterval timer (intervals s)))
      | None => inr s
      end
  end.

(** The timers of the ping table. *)
Definition ping_timers (s : Network) : list nat :=
  match _pingSeeds s with
  | Some table => JsObject.values table
  | None => []
  end.

(** Every timer handed out so far is below the next one. *)
Definition timers_inv (s : Network) : Prop :=
  (forall t, In t (intervals s) -> (t < next_interval s)%nat) /\
  (forall t, In t (ping_timers s) -> (t < next_interval s)%nat).

(** How [join] leaves the collaborators wired, and nothing else does. *)
Definition wiring_inv (s : Network) : Prop :=
  _node s = _open s /\
  transport_hooks s = (if _open s then join_hooks else []) /\
  subscriptions s
  = (if _open s && farmer (_options s) then [Contract_DEFAULTS_type] else []) /\
  (if _open s
   then map_throwing _createContact (seeds (_options s)) = inr (connecting s)
   else connecting s = []).

(** A pending entry is filed under the hash of the data it holds, with the
    contract [store] made for it. *)
Definition pending_inv (s : Network) : Prop :=
  forall h p,
    JsObject.get h (_pendingContracts s) = Some p ->
    pending_shardHash p = h /\
    h = rmd160sha256 (pending_data p) /\
    data_hash (pending_contract p) = h /\
    data_size (pending_contract p) = Z.of_nat (List.length (pending_data p)) /\
    renter_id (pending_contract p) = _keypair_nodeID s /\
    audit_count (pending_contract p) = 12.

(** The keys of the public-key cache are node IDs an address can be made
    of. *)
Definition pubkeys_inv (s : Network) : Prop :=
  forall k,
    In k (JsObject.keys (_pubkeys s)) -> Address_fromPublicKeyHash k <> None.

(** A response that carries a shard in hex. *)
Definition shard_response (hex : string) : Response :=
  {| response_error := None;
     response_result := Some {| proof := None; data_shard := Some hex |} |}.

(** A response that acknowledges without an error. *)
Definition ack_response : Response :=
  {| response_error := None; response_result := None |}.

(** The entry [store] leaves in the pending table for [data]. *)
Definition pending_of (s : Network) (data : list byte) (duration : string)
    (t1 t2 : Z) (entropy : list byte) : Pending :=
  {| pending_shardHash := rmd160sha256 data;
     pending_contract :=
       {| renter_id := _keypair_nodeID s;
          data_size := Z.of_nat (List.length data);
          data_hash := rmd160sha256 data;
          store_begin := t1;
          store_end := js_add t2 (ms duration);
          audit_count := 12;
          farmer_id := None;
          payment_destination := None;
          farmer_signature := None |};
     pending_data := data;
     pending_audit := Audit_new 12 data entropy |}.

End MoreNode.

(** The sample key pair: a private key is the hash of its public key, and
    signing writes that hash in hex. *)
Module SampleKeys.

Definition signer : Signer :=
  {| PrivateKey := list byte;
     Message_sign := fun _ privkey => Hex.encode privkey |}.

Definition farmer_key : list byte :=
  [x00; x11; x22; x33; x44; x55; x66; x77; x88; x99;
   xaa; xbb; xcc; xdd; xee; xff; x00; x11; x22; x33].

(** A response with the given ID, not yet signed. *)
Definition response (i : string) : Message :=
  {| id := i;
     method := None;
     params := {| __nonce := JsonNumber 0; __signature := "" |};
     result := {| __nonce := JsonNumber 0; __signature := "" |} |}.

(** A request whose nonce arrives as a string. *)
Definition request_text (i : string) (n : string) (sig : string) : Message :=
  {| id := i;
     method := Some "PING";
     params := {| __nonce := JsonString n; __signature := sig |};
     result := {| __nonce := JsonNumber 0; __signature := "" |} |}.

(** A request with the given ID, nonce and signature. *)
Definition request_as (i : string) (n : Z) (sig : string) : Message :=
  {| id := i;
     method := Some "PING";
     params := {| __nonce := JsonNumber n; __signature := sig |};
     result := {| __nonce := JsonNumber 0; __signature := "" |} |}.

Definition second_farmer : Contact :=
  {| address := Some "127.0.0.1"; port := 4002;
     nodeID := "ffeeddccbbaa99887766554433221100ffeeddcc" |}.

(** A small lib/contract: an object is a contract unless it lacks a data
    hash, the farmer's signature names its key, and the renter's signature
    is taken to verify when the contract names that renter. *)
Definition ops : @ContractOps signer :=
  @Build_ContractOps signer
    (fun c => if String.eqb (data_hash c) "" then None else Some c)
    (fun _ privkey => Hex.encode privkey)
    (fun c renter => String.eqb (renter_id c) renter).

(** A renter elsewhere, and the contract it publishes for the one-byte
    shard 68. *)
Definition remote_renter : Contact :=
  {| address := Some "127.0.0.1"; port := 4003;
     nodeID := "aabbccddeeff00112233445566778899aabbccdd" |}.

Definition publication : Contract :=
  mkContract "aabbccddeeff00112233445566778899aabbccdd" 1 "68" 0
    (Num 3600000) 12 None None None.

Definition countersigned : Reply OfferResponse :=
  Ok {| offer_error := None; offer_result := Some (Some publication) |}.

(** A node that farms: it joins, answers that publication and files its
    stub; then it stores the same shard itself, and the continuation runs
    for a farmer that acknowledges. *)
Definition farmed : Network :=
  snd (@farm_publication Sample.externals signer ops
         (snd (join Sample.seeded)) farmer_key "payment address" publication
         (Ok [remote_renter]) countersigned None).

Definition farmed_then_stored : Network :=
  snd (consign (snd (store farmed [x68] "1h" 10 11 [x01; x02]))
         (@pending_of Sample.externals farmed [x68] "1h" 10 11 [x01; x02])
         Sample.farmer_contact (Ok ack_response) None).

End SampleKeys.

(** * Properties *)

(** ** Objects *)

Module JsObjectFacts.
Import JsObject.

Section Facts.
Context {V : Type}.
Implicit Types (o : t V) (k : string) (v : V).

Lemma keys_set k v o : keys (set k v o) = add_key k (keys o).
Proof.
  induction o as [|[k' v'] r IH]; simpl; [reflexivity|].
  destruct (String.eqb k k'); simpl; [reflexivity|].
  now rewrite <- IH.
Qed.

Lemma get_set_same k v o : get k (set k v o) = Some v.
Proof.
  induction o as [|[k' v'] r IH]; simpl.
  - now rewrite String.eqb_refl.
  - destruct (String.eqb k k') eqn:Hk; simpl.
    + now rewrite String.eqb_refl.
    + now rewrite Hk.
Qed.

Lemma get_set_other k k' v o : k <> k' -> get k' (set k v o) = get k' o.
Proof.
  intros Hne.
  induction o as [|[k0 v0] r IH]; simpl.
  - apply String.eqb_neq in Hne. rewrite String.eqb_sym in Hne.
    now rewrite Hne.
  - destruct (String.eqb k k0) eqn:Hk; simpl.
    + apply String.eqb_eq in Hk. subst k0.
      destruct (String.eqb k' k) eqn:Hk'; [|reflexivity].
      apply String.eqb_eq in Hk'. congruence.
    + now rewrite IH.
Qed.

Lemma get_in o k v : get k o = Some v -> In (k, v) o.
Proof.
  induction o as [|[k' v'] r IH]; simpl; [discriminate|].
  destruct (String.eqb k k') eqn:Hk.
  - intros [= ->]. apply String.eqb_eq in Hk. subst. now left.
  - intros H. right. now apply IH.
Qed.
End Facts.



End JsObjectFacts.

(** ** Hex *)

Module HexFacts.
Import Hex.

Lemma decode_of_byte b r :
  decode (of_byte b ++ r) = option_map (cons b) (decode r).
Proof. destruct b; reflexivity. Qed.

(** [new Buffer(buf.toString('hex'), 'hex')] is a copy of [buf]. *)
Lemma decode_encode bs : decode (encode bs) = Some bs.
Proof.
  induction bs as [|b r IH]; [reflexivity|].
  change (encode (b :: r)) with (of_byte b ++ encode r).
  now rewrite decode_of_byte, IH.
Qed.

Example encode_hello :
  encode [x68; x65; x6c; x6c; x6f] = "68656c6c6f".
Proof. reflexivity. Qed.

Example decode_upper : decode "0aFF" = Some [x0a; xff].
Proof. reflexivity. Qed.

Example decode_odd : decode "abc" = None.
Proof. reflexivity. Qed.

End HexFacts.

(** ** Message authentication *)

Section AuthFacts.
Context {E : Externals}.
Implicit Types (cache : JsObject.t PublicKey) (m : Message) (c : Contact).

(** The hook, read through the definitions the statements use. *)
Lemma _verifyMessage_eq cache now m c :
  _verifyMessage cache now m c =
  if expired now m then
    (Fail MessageSignatureExpired, cache)
  else
    match Address_fromPublicKeyHash (nodeID c), recovered_pubkey m with
    | None, _ => (Throw TypeError, cache)
    | Some _, None => (Throw TypeError, cache)
    | Some addr, Some pk =>
        if list_eq_dec Byte.byte_eq_dec addr (hash160 pk)
        then
          if ecdsa_verify_recovered m pk
          then (Done tt, JsObject.set (nodeID c) pk cache)
          else (Fail SignatureVerificationFailed,
                JsObject.set (nodeID c) pk cache)
        else (Fail SignatureVerificationFailed,
              JsObject.set (nodeID c) pk cache)
    end.
Proof.
  unfold _verifyMessage, recovered_pubkey, expired, nonce_of, Message_verify,
    ecdsa_verify_recovered.
  destruct (js_gt now _); [reflexivity|].
  destruct (Address_fromPublicKeyHash _) as [addr|]; [|reflexivity].
  destruct (Signature_fromCompact _) as [sig|]; [|reflexivity].
  destruct (toPublicKey _ sig) as [pk|]; [|reflexivity].
  destruct (list_eq_dec _ addr (hash160 pk)); [|reflexivity].
  destruct (ecdsa_verify _ sig pk); reflexivity.
Qed.

Lemma address_is_decoded_id c addr :
  Address_fromPublicKeyHash (nodeID c) = Some addr ->
  Hex.decode (nodeID c) = Some addr.
Proof.
  unfold Address_fromPublicKeyHash.
  destruct (Hex.decode (nodeID c)) as [h|]; [|discriminate].
  destruct (Nat.eqb _ 20); [|discriminate].
  now intros [= ->].
Qed.

(** The test of the hook on a nonce that is a number. *)
Lemma expired_number now m n :
  nonce_of m = JsonNumber n ->
  expired now m = (now >? NONCE_EXPIRE + n).
Proof. unfold expired. now intros ->. Qed.

(** A nonce is fresh when the test does not fire; for a number [n] that is
    [now <= n + NONCE_EXPIRE]. *)
Lemma fresh_number now m n :
  nonce_of m = JsonNumber n ->
  expired now m = false <-> now <= n + NONCE_EXPIRE.
Proof.
  intros Hn. rewrite (expired_number now m n Hn).
  destruct (Z.gtb_spec now (NONCE_EXPIRE + n)); split;
    intros; (lia || congruence).
Qed.

(** The hook rejects as expired exactly when its test says so. *)
Lemma verify_expired_iff cache now m c :
  fst (_verifyMessage cache now m c) = Fail MessageSignatureExpired <->
  expired now m = true.
Proof.
  rewrite _verifyMessage_eq. destruct (expired now m).
  - split; reflexivity.
  - split; [|discriminate].
    destruct (Address_fromPublicKeyHash _) as [addr|]; [|discriminate].
    destruct (recovered_pubkey m) as [pk|]; [|discriminate].
    destruct (list_eq_dec _ addr (hash160 pk)); [|discriminate].
    destruct (ecdsa_verify_recovered m pk); discriminate.
Qed.

(** C2, as amended. For a message whose nonce is a number [n], the hook
    rejects with the nonce-expired error exactly when
    [now > n + NONCE_EXPIRE]: such a message is never accepted when [n] is
    strictly below [now - NONCE_EXPIRE], and is not rejected as expired when
    [n] equals [now - NONCE_EXPIRE]. *)
Theorem verify_expiry_bound cache now m c n :
  nonce_of m = JsonNumber n ->
  (fst (_verifyMessage cache now m c) = Fail MessageSignatureExpired <->
   now > n + NONCE_EXPIRE) /\
  (n < now - NONCE_EXPIRE ->
   fst (_verifyMessage cache now m c) <> Done tt) /\
  (n = now - NONCE_EXPIRE ->
   fst (_verifyMessage cache now m c) <> Fail MessageSignatureExpired).
Proof.
  intros Hn.
  assert (Hiff : fst (_verifyMessage cache now m c) = Fail MessageSignatureExpired
                 <-> now > n + NONCE_EXPIRE).
  { rewrite verify_expired_iff, (expired_number now m n Hn).
    destruct (Z.gtb_spec now (NONCE_EXPIRE + n)); split;
      intros; (lia || congruence). }
  split; [exact Hiff|split].
  - intros Hlt Hdone.
    assert (Hexp : fst (_verifyMessage cache now m c)
                   = Fail MessageSignatureExpired) by (apply Hiff; lia).
    congruence.
  - intros Heq Hexp. apply Hiff in Hexp. lia.
Qed.

(** C3. When the hook succeeds, the key recovered from the compact
    signature hashes to the claimed identity: ripemd160(sha256(pubkey)) is
    the node ID of the contact; and a recovered key that hashes to anything
    else is never accepted: once the nonce is fresh (the expiry test does
    not fire, see [fresh_number]) and the node ID is a 20-byte hash, the
    hook rejects with the signature error. *)
Theorem verify_binds_node_id cache now m c :
  (forall cache',
     _verifyMessage cache now m c = (Done tt, cache') ->
     exists pk,
       recovered_pubkey m = Some pk /\
       Hex.decode (nodeID c) = Some (hash160 pk)) /\
  (forall pk,
     recovered_pubkey m = Some pk ->
     Hex.decode (nodeID c) <> Some (hash160 pk) ->
     fst (_verifyMessage cache now m c) <> Done tt /\
     (expired now m = false ->
      Address_fromPublicKeyHash (nodeID c) <> None ->
      fst (_verifyMessage cache now m c) = Fail SignatureVerificationFailed)).
Proof.
  rewrite _verifyMessage_eq. split.
  - intros cache'.
    destruct (expired now m); [discriminate|].
    destruct (Address_fromPublicKeyHash _) as [addr|] eqn:Haddr; [|discriminate].
    destruct (recovered_pubkey m) as [pk|]; [|discriminate].
    destruct (list_eq_dec _ addr (hash160 pk)) as [->|]; [|discriminate].
    intros _. exists pk. split; [reflexivity|].
    now apply address_is_decoded_id.
  - intros pk Hpk Hne. rewrite Hpk.
    destruct (expired now m).
    + split; [discriminate|]. discriminate.
    + destruct (Address_fromPublicKeyHash _) as [addr|] eqn:Haddr.
      * apply address_is_decoded_id in Haddr.
        destruct (list_eq_dec _ addr (hash160 pk)) as [->|].
        -- contradiction.
        -- split; [discriminate|reflexivity].
      * split; [discriminate|]. intros _ Hnone. now elim Hnone.
Qed.

(** C8, as amended. The cache is written only after the nonce check has
    passed and a key has been recovered: an expired nonce (one the expiry
    test fires on, whatever JSON value it is), or a hook that throws, leaves
    the cache as it was; when verification succeeds the entry of the
    sender's node ID is the recovered key; the entries of all other node IDs
    are never touched. *)
Theorem verify_cache_update cache now m c :
  (expired now m = true ->
   snd (_verifyMessage cache now m c) = cache) /\
  (forall x, fst (_verifyMessage cache now m c) = Throw x ->
   snd (_verifyMessage cache now m c) = cache) /\
  (fst (_verifyMessage cache now m c) = Done tt ->
   exists pk,
     recovered_pubkey m = Some pk /\
     snd (_verifyMessage cache now m c) = JsObject.set (nodeID c) pk cache /\
     JsObject.get (nodeID c) (snd (_verifyMessage cache now m c)) = Some pk) /\
  (forall k, k <> nodeID c ->
   JsObject.get k (snd (_verifyMessage cache now m c)) = JsObject.get k cache).
Proof.
  rewrite _verifyMessage_eq.
  destruct (expired now m).
  { repeat split; try reflexivity; discriminate. }
  destruct (Address_fromPublicKeyHash _) as [addr|];
    [|repeat split; try reflexivity; discriminate].
  destruct (recovered_pubkey m) as [pk|];
    [|repeat split; try reflexivity; discriminate].
  assert (Hother : forall k, k <> nodeID c ->
            JsObject.get k (JsObject.set (nodeID c) pk cache)
            = JsObject.get k cache).
  { intros k Hk. apply JsObjectFacts.get_set_other. congruence. }
  destruct (list_eq_dec _ addr (hash160 pk));
    [destruct (ecdsa_verify_recovered m pk)|]; simpl;
    (split; [discriminate|split; [discriminate|split; [|exact Hother]]]);
    try discriminate.
  intros _. exists pk. repeat split. apply JsObjectFacts.get_set_same.
Qed.

End AuthFacts.

(** ** The life cycle *)

Section LifeCycle.
Context {E : Externals} {K : Signer} {O : ContractOps}.
Implicit Types (s : Network).

Lemma audit_state s h found reply : snd (audit s h found reply) = s.
Proof.
  unfold audit.
  repeat match goal with
         | |- context [match ?x with _ => _ end] => destruct x
         end; reflexivity.
Qed.

Lemma retrieve_state s h found reply : snd (retrieve s h found reply) = s.
Proof.
  unfold retrieve.
  repeat match goal with
         | |- context [match ?x with _ => _ end] => destruct x
         end; reflexivity.
Qed.

(** The handler of a publication touches the manager and nothing else. *)
Lemma farm_state s privkey address publication found reply save_err :
  snd (farm_publication s privkey address publication found reply save_err)
  = s \/
  exists items,
    snd (farm_publication s privkey address publication found reply save_err)
    = with_manager s items.
Proof.
  unfold farm_publication, farm_offer.
  repeat match goal with
         | |- context [match ?x with _ => _ end] => destruct x
         end; simpl; eauto.
Qed.

Lemma leave_state s : snd (leave s) = _removePingInterval s.
Proof. unfold leave. now destruct (_node (_removePingInterval s)). Qed.

Lemma join_cases s :
  (snd (join s) = s /\ exists x, fst (join s) = Throw x) \/
  (fst (join s) = Done tt /\ _options (snd (join s)) = _options s /\
   lifecycle_opened s (snd (join s))).
Proof.
  unfold join, lifecycle_opened, seeds_ok.
  destruct (map_throwing _ _) as [x|cs] eqn:Hseeds.
  - left. split; [reflexivity|now exists x].
  - destruct (_open s) eqn:Hopen.
    + left. split; [reflexivity|now exists AlreadyOpen].
    + right. simpl. destruct (farmer (_options s)); simpl;
        repeat split; eauto.
Qed.

Lemma step_lifecycle s s' :
  step s s' ->
  _options s' = _options s /\ (lifecycle_kept s s' \/ lifecycle_opened s s').
Proof.
  unfold lifecycle_kept.
  destruct 1 as [s|s|s contact err _|s now m c|s data d t1 t2 en
                |s h p f reply save_err _|s h found reply|s h found reply
                |s privkey address publication found reply save_err _].
  - destruct (join_cases s) as [[-> _]|(_ & Hopt & Hopened)]; auto.
  - rewrite leave_state. unfold _removePingInterval.
    destruct (_pingSeeds s); simpl; auto.
  - destruct err; simpl; auto.
  - simpl; auto.
  - unfold store. destruct (Hex.decode _); simpl; auto.
  - unfold consign. destruct reply as [e|response]; simpl; auto.
    destruct (response_error response); simpl; auto.
    destruct save_err; simpl; auto.
  - rewrite audit_state; auto.
  - rewrite retrieve_state; auto.
  - destruct (farm_state s privkey address publication found reply save_err)
      as [->|[items ->]]; simpl; auto.
Qed.

Lemma open_inv_step s s' : open_inv s -> step s s' -> open_inv s'.
Proof.
  intros Hinv Hstep Hopen'.
  destruct (step_lifecycle s s' Hstep) as [Hopt [[Ho Hn]|(Hc & Ho & Hn & Hs)]].
  - rewrite Ho in Hopen'. destruct (Hinv Hopen') as [Hnode Hseeds].
    split; [congruence|]. unfold seeds_ok in *. now rewrite Hopt.
  - split; [assumption|]. unfold seeds_ok in *. now rewrite Hopt.
Qed.

Lemma open_step s s' : step s s' -> _open s = true -> _open s' = true.
Proof.
  intros Hstep Hopen.
  destruct (step_lifecycle s s' Hstep) as [_ [[Ho _]|(Hc & _)]]; congruence.
Qed.

Lemma reachable_trans s0 s1 s2 :
  reachable s0 s1 -> reachable s1 s2 -> reachable s0 s2.
Proof.
  intros H01 H12. induction H12 as [|s s' _ IH Hstep]; [assumption|].
  exact (reachable_step s0 s s' IH Hstep).
Qed.

Lemma open_inv_reachable s0 s : open_inv s0 -> reachable s0 s -> open_inv s.
Proof.
  intros H0 Hr. induction Hr as [|s s' _ IH Hstep]; [assumption|].
  exact (open_inv_step s s' IH Hstep).
Qed.

Lemma open_reachable s0 s :
  reachable s0 s -> _open s0 = true -> _open s = true.
Proof.
  intros Hr H0. induction Hr as [|s s' _ IH Hstep]; [assumption|].
  exact (open_step s s' Hstep IH).
Qed.

Lemma open_inv_new options node_id contact items :
  open_inv (Network_new options node_id contact items).
Proof. intros Hopen. discriminate Hopen. Qed.

(** [join] on an open instance: the assertion fails before anything is
    touched. *)
Lemma join_on_open s :
  open_inv s -> _open s = true -> join s = (Throw AlreadyOpen, s).
Proof.
  intros Hinv Hopen. destruct (Hinv Hopen) as [_ [cs Hcs]].
  unfold join. now rewrite Hcs, Hopen.
Qed.

Lemma join_on_closed s x :
  _open s = false -> fst (join s) = Throw x -> x <> AlreadyOpen.
Proof.
  unfold join, _createContact.
  intros Hopen. rewrite Hopen.
  destruct (map_throwing _ _) as [y|cs] eqn:Hseeds.
  - simpl. intros [= <-]. clear Hopen.
    revert y Hseeds.
    induction (seeds (_options s)) as [|uri r IH]; simpl; [discriminate|].
    intros y.
    destruct (path (url_parse uri)).
    + destruct (AddressPortContact _ _ _).
      * destruct (map_throwing _ r) as [z|]; [|discriminate].
        intros [= <-]. now apply IH.
      * intros [= <-]. discriminate.
    + intros [= <-]. discriminate.
  - simpl. destruct (farmer (_options s)); discriminate.
Qed.

(** C4. On an instance that is already open, [join] fails with the
    already-open assertion and leaves the instance as it was: hooks, pending
    table, ping timers, open flag and all. The first [join] of a new
    instance never fails this way, and when it completes, the next one
    does. *)
Theorem join_twice_already_open options node_id contact items :
  let n := Network_new options node_id contact items in
  fst (join n) <> Throw AlreadyOpen /\
  (fst (join n) = Done tt ->
   join (snd (join n)) = (Throw AlreadyOpen, snd (join n))) /\
  (forall s, reachable n s -> _open s = true ->
   join s = (Throw AlreadyOpen, s)).
Proof.
  intros n.
  assert (Hgen : forall s, reachable n s -> _open s = true ->
                 join s = (Throw AlreadyOpen, s)).
  { intros s Hr Hopen. apply join_on_open; [|assumption].
    apply (open_inv_reachable n); [apply open_inv_new|assumption]. }
  split; [|split; [|exact Hgen]].
  - intros Hthrow. now apply (join_on_closed n AlreadyOpen).
  - intros Hdone. apply Hgen.
    + apply (reachable_step n n); [constructor|constructor].
    + destruct (join_cases n) as [[_ [x Hx]]|(_ & _ & _ & Ho & _)];
        [congruence|assumption].
Qed.

(** C10. [leave] on an open instance completes and leaves the open flag
    set, so every later [join] on that instance, whatever happened in
    between, fails with the already-open assertion. *)
Theorem leave_keeps_open options node_id contact items s :
  reachable (Network_new options node_id contact items) s ->
  _open s = true ->
  fst (leave s) = Done tt /\
  _open (snd (leave s)) = true /\
  (forall s', reachable (snd (leave s)) s' ->
   join s' = (Throw AlreadyOpen, s')).
Proof.
  intros Hr Hopen.
  set (n := Network_new options node_id contact items) in *.
  assert (Hinv : open_inv s).
  { apply (open_inv_reachable n); [apply open_inv_new|assumption]. }
  assert (Hleft : reachable n (snd (leave s))).
  { apply (reachable_step n s); [assumption|constructor]. }
  assert (Hopen' : _open (snd (leave s)) = true).
  { apply (open_reachable s); [|assumption].
    apply (reachable_step s s); constructor. }
  split; [|split; [assumption|]].
  - destruct (Hinv Hopen) as [Hnode _].
    unfold leave, _removePingInterval.
    destruct (_pingSeeds s); simpl; now rewrite Hnode.
  - intros s' Hr'. apply join_on_open.
    + apply (open_inv_reachable n); [apply open_inv_new|].
      now apply (reachable_trans n (snd (leave s))).
    + now apply (open_reachable (snd (leave s))).
Qed.

End LifeCycle.

(** ** Contracts and stored items *)

Section Storage.
Context {E : Externals} {K : Signer} {O : ContractOps}.
Implicit Types (s : Network) (item : StorageItem) (p : Pending).


(** C5, as amended. [store] hashes the shard with ripemd160(sha256(.)) and
    publishes, on the contract topic, a contract with exactly these fields:
    the renter's own node ID, the length of the data, the shard hash, the
    first reading of the clock as the beginning, the second reading of the
    clock plus the parsed duration as the end, twelve audits, and nothing
    set for the farmer. The end is the beginning plus the duration when
    the clock did not move between the two readings. The same contract
    waits in the pending table under the shard hash. *)
Theorem store_builds_contract s data duration t1 t2 entropy :
  let contract :=
    {| renter_id := _keypair_nodeID s;
       data_size := Z.of_nat (List.length data);
       data_hash := rmd160sha256 data;
       store_begin := t1;
       store_end :=
         match ms duration with
         | MsInteger d =>
             if Z.abs (t2 + d) <=? MAX_SAFE_INTEGER
             then Num (t2 + d) else OtherNumber
         | MsFraction => OtherNumber
         | MsUndefined => NaN
         end;
       audit_count := 12;
       farmer_id := None;
       payment_destination := None;
       farmer_signature := None |} in
  fst (store s data duration t1 t2 entropy)
  = inr (Contract_DEFAULTS_type, contract) /\
  option_map pending_contract
    (JsObject.get (rmd160sha256 data)
       (_pendingContracts (snd (store s data duration t1 t2 entropy))))
  = Some contract /\
  (forall d,
     ms duration = MsInteger d ->
     Z.abs (t2 + d) <= MAX_SAFE_INTEGER ->
     store_end contract = Num (t2 + d) /\
     (t2 = t1 -> store_end contract = Num (store_begin contract + d))).
Proof.
  unfold store. rewrite HexFacts.decode_encode. simpl.
  rewrite JsObjectFacts.get_set_same. simpl.
  unfold js_add. split; [reflexivity|]. split; [reflexivity|].
  intros d -> Hsafe. apply Z.leb_le in Hsafe. rewrite Hsafe.
  split; [reflexivity|]. now intros ->.
Qed.



Lemma consigned_item_hash s p farmer :
  filed_inv s -> hash (consigned_item s p farmer) = pending_shardHash p.
Proof.
  intros Hinv. unfold consigned_item, Manager_load.
  destruct (JsObject.get _ (manager s)) as [item|] eqn:Hget; simpl.
  - exact (Hinv _ _ Hget).
  - reflexivity.
Qed.






Lemma consign_done s p farmer reply save_err shard sent s' :
  consign s p farmer reply save_err = (Done shard, sent, s') ->
  shard = pending_shardHash p /\
  s' = with_manager s (Manager_save (manager s) (consigned_item s p farmer)).
Proof.
  unfold consign, consigned_item.
  destruct reply as [e|response]; [discriminate|].
  destruct (response_error response); [discriminate|].
  destruct save_err; [discriminate|].
  intros [= <- _ <-]. now split.
Qed.










Lemma store_inv_fresh options node_id contact :
  store_inv (fresh options node_id contact).
Proof. intros h item Hget. discriminate Hget. Qed.


End Storage.

(** ** Audits and retrievals *)

Section Audits.
Context {E : Externals}.
Implicit Types (s : Network) (item : StorageItem).

Lemma pick_farmer_id nodes farmerID farmer :
  pick_farmer nodes farmerID = Some farmer -> farmerID = Some (nodeID farmer).
Proof.
  unfold pick_farmer. destruct farmerID as [fid|]; [|discriminate].
  induction nodes as [|n r IH]; simpl; [discriminate|].
  destruct (String.eqb (nodeID n) fid) eqn:Hn; [|exact IH].
  simpl. intros [= <-]. apply String.eqb_eq in Hn. now rewrite Hn.
Qed.

(** What [audit] sends: nothing, or one AUDIT message to the holder of the
    first contract, carrying the head of that farmer's challenge list. *)
Lemma audit_sent s h found reply :
  snd (fst (audit s h found reply)) = [] \/
  exists item farmer record,
    Manager_load (manager s) h = Some item /\
    hd_error (JsObject.keys (contracts item)) = Some (nodeID farmer) /\
    JsObject.get (nodeID farmer) (item_challenges item) = Some record /\
    audit s h found reply =
    (audit_response record reply,
     [(farmer, AUDIT h (hd_error (challenges record)) (_contact s))], s).
Proof.
  unfold audit.
  destruct (Manager_load (manager s) h) as [item|]; [|now left].
  destruct found as [e|nodes]; [now left|].
  destruct (pick_farmer nodes _) as [farmer|] eqn:Hpick; [|now left].
  destruct (JsObject.get (nodeID farmer) _) as [record|] eqn:Hget; [|now left].
  right. exists item, farmer, record.
  apply pick_farmer_id in Hpick. auto.
Qed.

(** Audits never consume: two audits of a shard, one after the other, with
    whatever the router and the farmer answer, put the same challenge on
    the wire. *)
Lemma audit_repeats_challenge s h found1 reply1 found2 reply2 m1 m2 :
  In m1 (snd (fst (audit s h found1 reply1))) ->
  In m2 (snd (fst (audit (snd (audit s h found1 reply1)) h found2 reply2))) ->
  is_AUDIT m1 = true /\ challenge_of m1 = challenge_of m2.
Proof.
  rewrite audit_state.
  destruct (audit_sent s h found1 reply1)
    as [->|(i1 & f1 & r1 & Hl1 & Hk1 & Hc1 & ->)]; [contradiction|].
  destruct (audit_sent s h found2 reply2)
    as [->|(i2 & f2 & r2 & Hl2 & Hk2 & Hc2 & ->)]; [contradiction|].
  simpl. intros [<-|[]] [<-|[]].
  rewrite Hl1 in Hl2. injection Hl2 as <-.
  rewrite Hk1 in Hk2. injection Hk2 as Hid.
  rewrite <- Hid, Hc1 in Hc2. injection Hc2 as <-.
  split; reflexivity.
Qed.

(** What [audit] does when the challenge list of the selected farmer is
    empty: there is no check for it, the AUDIT message goes out with an
    undefined challenge and the answer is judged as for any other audit. *)
Theorem audit_no_challenge_left s h nodes reply item farmer record :
  Manager_load (manager s) h = Some item ->
  pick_farmer nodes (hd_error (JsObject.keys (contracts item))) = Some farmer ->
  JsObject.get (nodeID farmer) (item_challenges item) = Some record ->
  challenges record = [] ->
  audit s h (Ok nodes) reply =
  (audit_response record reply, [(farmer, AUDIT h None (_contact s))], s) /\
  (forall res pr,
     reply = Ok {| response_error := None; response_result := Some res |} ->
     proof res = Some pr ->
     fst (fst (audit s h (Ok nodes) reply))
     = Done (Verification_verify pr (root record) (depth record))).
Proof.
  intros Hload Hpick Hget Hnil. unfold audit.
  rewrite Hload, Hpick, Hget, Hnil. split; [reflexivity|].
  intros res pr -> Hpr. simpl. now rewrite Hpr.
Qed.

(** C9. An audit whose response carries a result without [proof], and a
    retrieval whose response carries a result without [data_shard], never
    call back with a verdict or a shard: once the request was sent, the
    callback receives an error, which is the invalid-proof or invalid-shard
    error unless the response itself names another. *)
Theorem missing_field_is_error s h found response res :
  response_result response = Some res ->
  (proof res = None ->
   (forall verdict,
      fst (fst (audit s h found (Ok response))) <> Done verdict) /\
   (snd (fst (audit s h found (Ok response))) <> [] ->
    fst (fst (audit s h found (Ok response)))
    = Fail (match response_error response with
            | Some m => ResponseError m
            | None => InvalidProofReturned
            end))) /\
  (data_shard res = None ->
   (forall shard,
      fst (fst (retrieve s h found (Ok response))) <> Done shard) /\
   (snd (fst (retrieve s h found (Ok response))) <> [] ->
    fst (fst (retrieve s h found (Ok response)))
    = Fail (match response_error response with
            | Some m => ResponseError m
            | None => InvalidShardReturned
            end))).
Proof.
  intros Hres. split; intros Hmissing.
  - unfold audit, audit_response. rewrite Hres, Hmissing.
    destruct (Manager_load _ _); [|split; [discriminate|now intros []]].
    destruct found; [split; [discriminate|now intros []]|].
    destruct (pick_farmer _ _); [|split; [discriminate|now intros []]].
    destruct (JsObject.get _ _); [|split; [discriminate|now intros []]].
    simpl. destruct (response_error response); split;
      (discriminate || reflexivity).
  - unfold retrieve, retrieve_response. rewrite Hres, Hmissing.
    destruct (Manager_load _ _); [|split; [discriminate|now intros []]].
    destruct found; [split; [discriminate|now intros []]|].
    destruct (pick_farmer _ _); [|split; [discriminate|now intros []]].
    simpl. destruct (response_error response); split;
      (discriminate || reflexivity).
Qed.

End Audits.

(** ** Runs on the sample instance *)

Section Runs.
Import Sample.
#[local] Existing Instance Sample.externals.
#[local] Existing Instance SampleKeys.signer.
#[local] Existing Instance SampleKeys.ops.

(** C1. Two audits of the same shard, one after the other, on a renter
    that holds the challenges c0 and c1 for its farmer: both put c0 on the
    wire, both report a verdict, and the manager still holds what it held
    before; no challenge is ever popped or saved. *)
Theorem audit_twice_same_challenge :
  let s0 := renter_with ["c0"; "c1"] in
  let a1 := audit s0 "h" (Ok [farmer_contact]) (proof_reply "root") in
  let a2 := audit (snd a1) "h" (Ok [farmer_contact]) (proof_reply "root") in
  fst a1 = (Done true, [(farmer_contact, AUDIT "h" (Some "c0") renter_contact)])
  /\ fst a2
     = (Done true, [(farmer_contact, AUDIT "h" (Some "c0") renter_contact)])
  /\ manager (snd a2) = manager s0.
Proof. repeat split. Qed.

(** C2, the claim as stated fails: a message whose nonce is exactly
    [now - NONCE_EXPIRE] is accepted. *)
Lemma verify_accepts_at_bound :
  let now := 1700000015000 in
  let m := request 1700000000000 farmer_id in
  nonce_of m = JsonNumber 1700000000000 /\
  1700000000000 <= now - NONCE_EXPIRE /\
  fst (_verifyMessage [] now m farmer_contact) = Done tt.
Proof. split; [reflexivity|]. split; [discriminate|reflexivity]. Qed.

Lemma verify_expiry_bound_witness :
  let m := request 1700000000000 farmer_id in
  nonce_of m = JsonNumber 1700000000000 /\
  (1700000000000 < 1700000020000 - NONCE_EXPIRE /\
   fst (_verifyMessage [] 1700000020000 m farmer_contact) <> Done tt) /\
  (1700000000000 = 1700000015000 - NONCE_EXPIRE /\
   fst (_verifyMessage [] 1700000015000 m farmer_contact)
   <> Fail MessageSignatureExpired) /\
  (1700000015001 > 1700000000000 + NONCE_EXPIRE /\
   fst (_verifyMessage [] 1700000015001 m farmer_contact)
   = Fail MessageSignatureExpired).
Proof.
  cbv zeta. split; [reflexivity|].
  split; [|split]; (split; [reflexivity|]).
  - apply (proj1 (proj2 (verify_expiry_bound [] 1700000020000
                           (request 1700000000000 farmer_id) farmer_contact
                           1700000000000 eq_refl))).
    reflexivity.
  - apply (proj2 (proj2 (verify_expiry_bound [] 1700000015000
                           (request 1700000000000 farmer_id) farmer_contact
                           1700000000000 eq_refl))).
    reflexivity.
  - apply (proj1 (verify_expiry_bound [] 1700000015001
                    (request 1700000000000 farmer_id) farmer_contact
                    1700000000000 eq_refl)).
    reflexivity.
Defined.

(** The bound above speaks of numbers. A nonce that arrives as a string
    of the same digits is concatenated to [NONCE_EXPIRE] before the
    comparison and appended to the ID as it is, so the signature of the
    numeric message fits and the message is accepted however late. *)
Example verify_string_nonce_passes :
  let late := 9000000000000 in
  let m := SampleKeys.request_text "abc" "1700000000000" farmer_id in
  fst (_verifyMessage [] late (request 1700000000000 farmer_id)
         farmer_contact) = Fail MessageSignatureExpired /\
  target_of m = target_of (request 1700000000000 farmer_id) /\
  fst (_verifyMessage [] late m farmer_contact) = Done tt.
Proof. repeat split. Qed.

Lemma verify_binds_node_id_witness :
  (exists pk,
     recovered_pubkey (request 1700000000000 farmer_id) = Some pk /\
     Hex.decode (nodeID farmer_contact) = Some (hash160 pk)) /\
  fst (_verifyMessage [] 1700000010000
         (request 1700000000000 other_id) farmer_contact)
  = Fail SignatureVerificationFailed.
Proof.
  split.
  - eapply (proj1 (verify_binds_node_id [] 1700000010000
                     (request 1700000000000 farmer_id) farmer_contact)).
    reflexivity.
  - eapply (proj2 (verify_binds_node_id [] 1700000010000
                     (request 1700000000000 other_id) farmer_contact)).
    + reflexivity.
    + discriminate.
    + reflexivity.
    + discriminate.
Defined.

(** C8, the claim as stated fails: a request that names the farmer as its
    sender but carries another key's signature is rejected for its
    signature, and the farmer's cache entry has changed all the same. *)
Lemma verify_caches_unverified_key :
  let r := _verifyMessage [] 1700000010000
             (request 1700000000000 other_id) farmer_contact in
  fst r = Fail SignatureVerificationFailed /\
  JsObject.get (nodeID farmer_contact) (snd r)
  <> JsObject.get (nodeID farmer_contact) [].
Proof. split; [reflexivity|discriminate]. Qed.

Lemma verify_cache_update_witness :
  (snd (_verifyMessage [] 1700000020000
          (request 1700000000000 farmer_id) farmer_contact) = []) /\
  (exists pk,
     recovered_pubkey (request 1700000000000 farmer_id) = Some pk /\
     snd (_verifyMessage [] 1700000010000
            (request 1700000000000 farmer_id) farmer_contact)
     = JsObject.set farmer_id pk [] /\
     JsObject.get farmer_id
       (snd (_verifyMessage [] 1700000010000
               (request 1700000000000 farmer_id) farmer_contact))
     = Some pk) /\
  (snd (_verifyMessage [] 1700000010000
          (request 1700000000000 "") farmer_contact) = []) /\
  (JsObject.get other_id
     (snd (_verifyMessage [] 1700000010000
             (request 1700000000000 farmer_id) farmer_contact))
   = JsObject.get other_id []).
Proof.
  split; [|split; [|split]].
  - apply (proj1 (verify_cache_update [] 1700000020000
                    (request 1700000000000 farmer_id) farmer_contact)).
    reflexivity.
  - apply (proj1 (proj2 (proj2
             (verify_cache_update [] 1700000010000
                (request 1700000000000 farmer_id) farmer_contact)))).
    reflexivity.
  - apply (proj1 (proj2
             (verify_cache_update [] 1700000010000
                (request 1700000000000 "") farmer_contact)) TypeError).
    reflexivity.
  - apply (proj2 (proj2 (proj2
             (verify_cache_update [] 1700000010000
                (request 1700000000000 farmer_id) farmer_contact)))).
    discriminate.
Defined.

Lemma join_twice_already_open_witness :
  fst (join seeded) = Done tt /\
  join (snd (join seeded)) = (Throw AlreadyOpen, snd (join seeded)) /\
  (let s := connected (snd (join seeded)) farmer_contact None in
   _open s = true /\ join s = (Throw AlreadyOpen, s)).
Proof.
  split; [reflexivity|]. split.
  - apply (proj1 (proj2 (join_twice_already_open
                           {| seeds := [farmer_id]; farmer := true |}
                           other_id renter_contact JsObject.empty))).
    reflexivity.
  - cbv zeta. split; [reflexivity|].
    apply (proj2 (proj2 (join_twice_already_open
                           {| seeds := [farmer_id]; farmer := true |}
                           other_id renter_contact JsObject.empty)));
      [|reflexivity].
    apply (reachable_step seeded (snd (join seeded))).
    + apply (reachable_step seeded seeded); constructor.
    + apply step_connected. left. reflexivity.
Defined.

Lemma leave_keeps_open_witness :
  let s := snd (join seeded) in
  _open s = true /\
  fst (leave s) = Done tt /\
  _open (snd (leave s)) = true /\
  join (snd (leave s)) = (Throw AlreadyOpen, snd (leave s)).
Proof.
  assert (Hr : reachable seeded (snd (join seeded))).
  { apply (reachable_step seeded seeded); constructor. }
  destruct (leave_keeps_open {| seeds := [farmer_id]; farmer := true |}
              other_id renter_contact JsObject.empty
              (snd (join seeded)) Hr eq_refl) as (Hdone & Hopen & Hjoin).
  cbv zeta.
  split; [reflexivity|]. split; [exact Hdone|]. split; [exact Hopen|].
  apply Hjoin. constructor.
Defined.

(** C5, the claim as stated fails: the clock moves between the two
    readings, and the end of the contract is not its beginning plus the
    duration. *)
Lemma store_end_drifts :
  ms "1h" = MsInteger 3600000 /\
  exists contract,
    fst (store seeded [x68] "1h" 10 11 []) = inr ("contract", contract) /\
    store_begin contract = 10 /\
    store_end contract = Num 3600011 /\
    store_end contract <> Num (store_begin contract + 3600000).
Proof.
  split; [reflexivity|]. eexists. split; [reflexivity|].
  split; [reflexivity|]. split; [reflexivity|discriminate].
Qed.

Lemma store_builds_contract_witness :
  exists contract,
    fst (store seeded [x68] "1h" 10 10 []) = inr ("contract", contract) /\
    store_end contract = Num (store_begin contract + 3600000).
Proof.
  destruct (store_builds_contract seeded [x68] "1h" 10 10 [])
    as (Hpublished & _ & Hend).
  eexists. split; [exact Hpublished|].
  apply (Hend 3600000 eq_refl); [discriminate|reflexivity].
Defined.




(** C7. The farmer's challenge list is empty, and the audit sends its
    message all the same, without a challenge, and reports a verdict: no
    exhaustion error is raised. *)
Lemma audit_exhausted_still_sends :
  option_map challenges
    (JsObject.get farmer_id (item_challenges (item_with []))) = Some [] /\
  fst (audit (renter_with []) "h" (Ok [farmer_contact]) (proof_reply "root"))
  = (Done true, [(farmer_contact, AUDIT "h" None renter_contact)]).
Proof. split; reflexivity. Qed.

Lemma audit_no_challenge_left_witness :
  audit (renter_with []) "h" (Ok [farmer_contact]) empty_reply
  = (Fail InvalidProofReturned,
     [(farmer_contact, AUDIT "h" None renter_contact)],
     renter_with []) /\
  fst (fst (audit (renter_with []) "h" (Ok [farmer_contact])
              (proof_reply "leaf")))
  = Done false.
Proof.
  split.
  - apply (audit_no_challenge_left (renter_with []) "h" [farmer_contact]
             empty_reply (item_with []) farmer_contact
             {| challenges := []; root := "root"; depth := 4 |});
      reflexivity.
  - apply (proj2 (audit_no_challenge_left (E := Sample.externals)
                    (renter_with []) "h"
                    [farmer_contact] (proof_reply "leaf") (item_with [])
                    farmer_contact
                    {| challenges := []; root := "root"; depth := 4 |}
                    eq_refl eq_refl eq_refl eq_refl)
             _ _ eq_refl eq_refl).
Defined.

Lemma missing_field_is_error_witness :
  fst (fst (audit (renter_with ["c0"]) "h" (Ok [farmer_contact])
              (Ok {| response_error := None;
                     response_result :=
                       Some {| proof := None; data_shard := None |} |})))
  = Fail InvalidProofReturned /\
  fst (fst (retrieve (renter_with ["c0"]) "h" (Ok [farmer_contact])
              (Ok {| response_error := None;
                     response_result :=
                       Some {| proof := None; data_shard := None |} |})))
  = Fail InvalidShardReturned.
Proof.
  destruct (missing_field_is_error (renter_with ["c0"]) "h"
              (Ok [farmer_contact])
              {| response_error := None;
                 response_result :=
                   Some {| proof := None; data_shard := None |} |}
              {| proof := None; data_shard := None |} eq_refl)
    as [Haudit Hretrieve].
  split.
  - apply (proj2 (Haudit eq_refl)). discriminate.
  - apply (proj2 (Hretrieve eq_refl)). discriminate.
Defined.

End Runs.


(** * Further properties *)

(** ** Signing and verifying *)

Section AuthMore.
Context {E : Externals}.
Implicit Types (cache : JsObject.t PublicKey) (m : Message) (c : Contact).

Lemma recovered_pubkey_eq m :
  recovered_pubkey m =
  match Signature_fromCompact (signature_of m) with
  | None => None
  | Some sig => toPublicKey (magicHash (target_of m)) sig
  end.
Proof. reflexivity. Qed.

Lemma ecdsa_verify_recovered_eq m pk :
  ecdsa_verify_recovered m pk =
  match Signature_fromCompact (signature_of m) with
  | None => false
  | Some sig => ecdsa_verify (magicHash (target_of m)) sig pk
  end.
Proof. reflexivity. Qed.

(** When the hook lets a message through. *)
Lemma verify_accept_iff cache now m c :
  fst (_verifyMessage cache now m c) = Done tt <->
  expired now m = false /\
  exists pk,
    Address_fromPublicKeyHash (nodeID c) = Some (hash160 pk) /\
    recovered_pubkey m = Some pk /\
    ecdsa_verify_recovered m pk = true.
Proof.
  rewrite _verifyMessage_eq.
  destruct (expired now m).
  { split; [discriminate|]. intros [Hle _]. discriminate Hle. }
  destruct (Address_fromPublicKeyHash _) as [addr|].
  2:{ split; [discriminate|]. now intros (_ & pk & Ha & _). }
  destruct (recovered_pubkey m) as [pk|].
  2:{ split; [discriminate|]. now intros (_ & pk & _ & Hr & _). }
  destruct (list_eq_dec _ addr (hash160 pk)) as [->|Hne].
  - destruct (ecdsa_verify_recovered m pk) eqn:Hv.
    + split; [|reflexivity]. intros _. split; [reflexivity|]. now exists pk.
    + split; [discriminate|].
      intros (_ & pk' & _ & [= <-] & Hv'). congruence.
  - split; [discriminate|].
    intros (_ & pk' & [= ->] & [= <-] & _). contradiction.
Qed.

(** X2. A message the hook has accepted once is accepted again, whatever
    the cache holds, at exactly the times at which the expiry test does not
    fire. For a nonce that is a number [n] these are the times up to
    [n + NONCE_EXPIRE], before or after the first acceptance: a replay
    inside the window passes, and so does a nonce that lies in the
    future. *)
Theorem verify_accepts_replay cache cache' now now' m c :
  fst (_verifyMessage cache now m c) = Done tt ->
  (fst (_verifyMessage cache' now' m c) = Done tt <->
   expired now' m = false) /\
  (forall n,
     nonce_of m = JsonNumber n ->
     now <= n + NONCE_EXPIRE /\
     (fst (_verifyMessage cache' now' m c) = Done tt <->
      now' <= n + NONCE_EXPIRE)).
Proof.
  intros Hacc. apply verify_accept_iff in Hacc.
  destruct Hacc as [Hfresh Hkey].
  assert (Hiff : fst (_verifyMessage cache' now' m c) = Done tt <->
                 expired now' m = false).
  { rewrite verify_accept_iff. split; [now intros [H _]|]. intros H.
    split; [exact H|exact Hkey]. }
  split; [exact Hiff|].
  intros n Hn. rewrite (expired_number now m n Hn) in Hfresh.
  rewrite Hiff, (expired_number now' m n Hn).
  split.
  - destruct (Z.gtb_spec now (NONCE_EXPIRE + n)); [discriminate|lia].
  - destruct (Z.gtb_spec now' (NONCE_EXPIRE + n)); split;
      intros; (lia || congruence).
Qed.

(** X3. The signature covers the ID and the nonce only through their
    concatenation: a message that carries the signature of an accepted one,
    and whose ID and nonce concatenate to the same string, is accepted
    whenever its own nonce is fresh (the expiry test does not fire on it,
    see [fresh_number]). Digits at the end of the ID can be moved to the
    front of the nonce, and a nonce may come as the string of its digits. *)
Theorem verify_same_target cache cache' now now' m m' c :
  signature_of m' = signature_of m ->
  target_of m' = target_of m ->
  fst (_verifyMessage cache now m c) = Done tt ->
  expired now' m' = false ->
  fst (_verifyMessage cache' now' m' c) = Done tt.
Proof.
  intros Hsig Htarget Hacc Hfresh. apply verify_accept_iff in Hacc.
  destruct Hacc as (_ & pk & Haddr & Hrec & Hver).
  apply verify_accept_iff. split; [exact Hfresh|].
  exists pk. split; [exact Haddr|].
  rewrite recovered_pubkey_eq, ecdsa_verify_recovered_eq in *.
  rewrite Hsig, Htarget. now split.
Qed.

Section RoundTrip.
Context {K : Signer}.

Lemma _signMessage_reads privkey t m :
  isRequest (_signMessage privkey t m) = isRequest m /\
  id (_signMessage privkey t m) = id m /\
  nonce_of (_signMessage privkey t m) = JsonNumber t /\
  signature_of (_signMessage privkey t m)
  = Message_sign (id m ++ decimal t) privkey.
Proof.
  unfold _signMessage, nonce_of, signature_of, isRequest.
  destruct (method m); simpl; repeat split.
Qed.

(** X1. Sign, then verify: a message signed by [_signMessage] at time [t]
    under a key pair whose public key hashes to the contact's node ID is
    accepted by [_verifyMessage] at time [now] exactly when
    [now <= t + NONCE_EXPIRE], and is rejected as expired otherwise;
    requests and responses alike. *)
Theorem sign_verify_round_trip privkey pk cache now t m c :
  signs_for privkey pk ->
  Address_fromPublicKeyHash (nodeID c) = Some (hash160 pk) ->
  fst (_verifyMessage cache now (_signMessage privkey t m) c)
  = if now >? NONCE_EXPIRE + t
    then Fail MessageSignatureExpired
    else Done tt.
Proof.
  intros Hsigns Haddr.
  destruct (_signMessage_reads privkey t m) as (Hreq & Hid & Hnonce & Hsig).
  destruct (now >? NONCE_EXPIRE + t) eqn:Hgt.
  - apply verify_expired_iff. now rewrite (expired_number _ _ t Hnonce).
  - apply verify_accept_iff.
    split; [now rewrite (expired_number _ _ t Hnonce)|].
    exists pk. split; [exact Haddr|].
    rewrite recovered_pubkey_eq, ecdsa_verify_recovered_eq.
    unfold target_of. rewrite Hsig, Hid, Hnonce. simpl.
    destruct (Hsigns (id m ++ decimal t)) as (sig & -> & Hrec & Hver).
    now split.
Qed.

End RoundTrip.

End AuthMore.

(** ** Joining, leaving and the ping timers *)

Section LifeCycleMore.
Context {E : Externals} {K : Signer} {O : ContractOps}.
Implicit Types (s : Network).

Lemma map_throwing_fails {A B : Type} (f : A -> Exception + B) l a x :
  In a l -> f a = inl x ->
  exists a' y, In a' l /\ f a' = inl y /\ map_throwing f l = inl y.
Proof.
  induction l as [|b r IH]; simpl; [contradiction|].
  intros Hin Hfa. destruct (f b) as [y|b'] eqn:Hfb.
  - exists b, y. auto.
  - destruct Hin as [->|Hin]; [congruence|].
    destruct (IH Hin Hfa) as (a' & y & Hin' & Hfa' & ->).
    exists a', y. auto.
Qed.

(** X4. One seed URI that makes no contact is enough for [join] to throw
    that seed's exception, before the open flag is even looked at, and to
    leave the instance exactly as it was: no hook, no node, not open. *)
Theorem join_bad_seed s uri x :
  In uri (seeds (_options s)) ->
  _createContact uri = inl x ->
  exists uri' y,
    In uri' (seeds (_options s)) /\
    _createContact uri' = inl y /\
    join s = (Throw y, s).
Proof.
  intros Hin Hbad.
  destruct (map_throwing_fails _createContact _ uri x Hin Hbad)
    as (uri' & y & Hin' & Hbad' & Hmap).
  exists uri', y. unfold join. rewrite Hmap. auto.
Qed.

(** What a [join] that completes has done. *)
Lemma join_done s :
  fst (join s) = Done tt ->
  exists cs,
    map_throwing _createContact (seeds (_options s)) = inr cs /\
    _open s = false /\
    _options (snd (join s)) = _options s /\
    _open (snd (join s)) = true /\
    _node (snd (join s)) = true /\
    transport_hooks (snd (join s)) = (transport_hooks s ++ join_hooks)%list /\
    connecting (snd (join s)) = (connecting s ++ cs)%list /\
    subscriptions (snd (join s))
    = (subscriptions s ++
       (if farmer (_options s) then [Contract_DEFAULTS_type] else []))%list /\
    intervals (snd (join s)) = intervals s /\
    next_interval (snd (join s)) = next_interval s /\
    _pingSeeds (snd (join s)) = _pingSeeds s /\
    _pendingContracts (snd (join s)) = _pendingContracts s /\
    _pubkeys (snd (join s)) = _pubkeys s /\
    _keypair_nodeID (snd (join s)) = _keypair_nodeID s /\
    manager (snd (join s)) = manager s.
Proof.
  unfold join.
  destruct (map_throwing _ _) as [x|cs]; [discriminate|].
  destruct (_open s); [discriminate|].
  intros _. exists cs. simpl.
  destruct (farmer (_options s)); simpl;
    rewrite ?app_nil_r; repeat split; reflexivity.
Qed.

Lemma join_not_done s : fst (join s) <> Done tt -> snd (join s) = s.
Proof.
  unfold join.
  destruct (map_throwing _ _) as [x|cs]; [reflexivity|].
  destruct (_open s); [reflexivity|].
  intros H. now elim H.
Qed.

(** Every event but a completing [join] leaves the wiring alone. *)
Lemma step_wiring s s' :
  step s s' ->
  (s' = snd (join s) /\ fst (join s) = Done tt) \/
  (_options s' = _options s /\ _open s' = _open s /\ _node s' = _node s /\
   transport_hooks s' = transport_hooks s /\
   subscriptions s' = subscriptions s /\
   connecting s' = connecting s).
Proof.
  destruct 1 as [s|s|s contact err _|s now m c|s data d t1 t2 en
                |s h p f reply save_err _|s h found reply|s h found reply
                |s privkey address publication found reply save_err _].
  - destruct (fst (join s)) as [[]|e|x] eqn:Hj.
    + left. auto.
    + right. rewrite join_not_done by congruence. repeat split.
    + right. rewrite join_not_done by congruence. repeat split.
  - right. rewrite leave_state. unfold _removePingInterval.
    destruct (_pingSeeds s); repeat split.
  - right. destruct err; repeat split.
  - right. repeat split.
  - right. unfold store. destruct (Hex.decode _); repeat split.
  - right. unfold consign. destruct reply as [e|response]; [repeat split|].
    destruct (response_error response); [repeat split|].
    destruct save_err; repeat split.
  - right. rewrite audit_state. repeat split.
  - right. rewrite retrieve_state. repeat split.
  - right.
    destruct (farm_state s privkey address publication found reply save_err)
      as [->|[items ->]]; repeat split.
Qed.

Lemma wiring_inv_step s s' : wiring_inv s -> step s s' -> wiring_inv s'.
Proof.
  unfold wiring_inv. intros (Hn & Hh & Hsub & Hc) Hstep.
  destruct (step_wiring s s' Hstep)
    as [[-> Hj]|(Ho & Hop & Hno & Hho & Hsu & Hco)].
  - destruct (join_done s Hj)
      as (cs & Hmap & Hclosed & -> & -> & -> & -> & -> & -> & _).
    rewrite Hclosed in *. simpl in *.
    rewrite Hh, Hsub, Hc. simpl. repeat split. exact Hmap.
  - rewrite Ho, Hop, Hno, Hho, Hsu, Hco. auto.
Qed.

Lemma wiring_inv_reachable s0 s :
  wiring_inv s0 -> reachable s0 s -> wiring_inv s.
Proof.
  intros H0 Hr. induction Hr as [|s s' _ IH Hstep]; [assumption|].
  exact (wiring_inv_step s s' IH Hstep).
Qed.

Lemma wiring_inv_new options node_id contact items :
  wiring_inv (Network_new options node_id contact items).
Proof. repeat split. Qed.

(** X5. Whatever happens to an instance after its construction, the
    transport carries the four hooks of [join], once and in order, exactly
    while the instance is open, and none before; the node exists exactly
    then; one connect per seed was started, in the order of the seeds; and
    there is one subscription to the contract topic if the instance farms,
    none otherwise. *)
Theorem join_wires_once options node_id contact items s :
  reachable (Network_new options node_id contact items) s ->
  _node s = _open s /\
  transport_hooks s = (if _open s then join_hooks else []) /\
  subscriptions s
  = (if _open s && farmer options then [Contract_DEFAULTS_type] else []) /\
  (if _open s
   then map_throwing _createContact (seeds options) = inr (connecting s)
   else connecting s = []) /\
  _options s = options.
Proof.
  intros Hr.
  assert (Hopt : _options s = options).
  { induction Hr as [|s s' _ IH Hstep]; [reflexivity|].
    destruct (step_lifecycle s s' Hstep) as [-> _]. exact IH. }
  destruct (wiring_inv_reachable _ s (wiring_inv_new _ _ _ _) Hr)
    as (Hn & Hh & Hsub & Hc).
  rewrite Hopt in *. auto.
Qed.

(** X6. [leave] completes on an open instance and throws a TypeError on
    one that never joined, there being no node to disconnect. *)
Theorem leave_needs_join options node_id contact items s :
  reachable (Network_new options node_id contact items) s ->
  fst (leave s) = if _open s then Done tt else Throw TypeError.
Proof.
  intros Hr.
  destruct (wiring_inv_reachable _ s (wiring_inv_new _ _ _ _) Hr)
    as (Hn & _).
  unfold leave, _removePingInterval.
  destruct (_pingSeeds s); simpl; rewrite Hn; now destruct (_open s).
Qed.

(** *** Timers *)

Lemma filter_filter {A : Type} (f g : A -> bool) l :
  filter f (filter g l) = filter (fun x => g x && f x) l.
Proof.
  induction l as [|a r IH]; simpl; [reflexivity|].
  destruct (g a); simpl; [|exact IH].
  destruct (f a); now rewrite IH.
Qed.

(** Clearing the timers of a list, one after the other, is one filter. *)
Lemma clear_all timers active :
  fold_left (fun active t => clearInterval t active) timers active
  = filter (fun x => negb (existsb (Nat.eqb x) timers)) active.
Proof.
  revert active. induction timers as [|t r IH]; intros active; simpl.
  - induction active as [|a l IHl]; simpl; [reflexivity|]. now rewrite <- IHl.
  - rewrite IH. unfold clearInterval. rewrite filter_filter.
    apply filter_ext. intros x. now rewrite negb_orb.
Qed.

Lemma in_clear_all timers active x :
  In x (fold_left (fun active t => clearInterval t active) timers active)
  <-> In x active /\ ~ In x timers.
Proof.
  rewrite clear_all, filter_In, negb_true_iff.
  split; intros [Hin Hx]; (split; [exact Hin|]).
  - intros Hin'. apply not_true_iff_false in Hx. apply Hx.
    apply existsb_exists. exists x. split; [exact Hin'|apply Nat.eqb_refl].
  - apply not_true_iff_false. intros Hex.
    apply existsb_exists in Hex. destruct Hex as (y & Hy & Heq).
    apply Nat.eqb_eq in Heq. now subst y.
Qed.

Lemma intervals_after_leave s x :
  In x (intervals (snd (leave s))) <->
  In x (intervals s) /\ ~ In x (ping_timers s).
Proof.
  rewrite leave_state. unfold _removePingInterval, ping_timers.
  destruct (_pingSeeds s) as [table|]; simpl.
  - apply in_clear_all.
  - tauto.
Qed.

(** X7. [leave] stops every timer of the ping table and no other, keeps
    the table itself, and is idempotent: leaving twice leaves the instance
    as leaving once does. *)
Theorem leave_clears_ping_timers s :
  (forall t, In t (intervals (snd (leave s))) <->
             In t (intervals s) /\ ~ In t (ping_timers s)) /\
  _pingSeeds (snd (leave s)) = _pingSeeds s /\
  snd (leave (snd (leave s))) = snd (leave s).
Proof.
  split; [intros t; apply intervals_after_leave|].
  rewrite !leave_state. unfold _removePingInterval.
  destruct (_pingSeeds s) as [table|] eqn:Htable; simpl.
  - rewrite Htable. split; [reflexivity|]. unfold with_intervals. simpl.
    f_equal. rewrite !clear_all, filter_filter.
    apply filter_ext. intros x. apply andb_diag.
  - rewrite Htable. split; reflexivity.
Qed.

Lemma in_values_set {V : Type} k (v x : V) o :
  In x (JsObject.values (JsObject.set k v o)) ->
  x = v \/ In x (JsObject.values o).
Proof.
  induction o as [|[k' v'] r IH]; simpl.
  - intros [<-|[]]. now left.
  - destruct (String.eqb k k'); simpl.
    + intros [<-|Hin]; auto.
    + intros [<-|Hin]; auto. destruct (IH Hin); auto.
Qed.

Lemma set_set {V : Type} k (v v' : V) o :
  JsObject.set k v (JsObject.set k v' o) = JsObject.set k v o.
Proof.
  induction o as [|[k' v0] r IH]; simpl.
  - now rewrite String.eqb_refl.
  - destruct (String.eqb k k') eqn:Hk; simpl.
    + now rewrite String.eqb_refl.
    + now rewrite Hk, IH.
Qed.

(** Which events touch the timers. *)
Lemma step_timers s s' :
  step s s' ->
  (exists contact, s' = _addPingInterval s contact) \/
  s' = _removePingInterval s \/
  (intervals s' = intervals s /\ next_interval s' = next_interval s /\
   _pingSeeds s' = _pingSeeds s).
Proof.
  destruct 1 as [s|s|s contact err _|s now m c|s data d t1 t2 en
                |s h p f reply save_err _|s h found reply|s h found reply
                |s privkey address publication found reply save_err _].
  - right. right. destruct (fst (join s)) as [[]|e|x] eqn:Hj.
    + destruct (join_done s Hj)
        as (cs & _ & _ & _ & _ & _ & _ & _ & _ & -> & -> & -> & _).
      repeat split.
    + rewrite join_not_done by congruence. repeat split.
    + rewrite join_not_done by congruence. repeat split.
  - right. left. apply leave_state.
  - destruct err; [right; right; repeat split|left; now exists contact].
  - right. right. repeat split.
  - right. right. unfold store. destruct (Hex.decode _); repeat split.
  - right. right. unfold consign.
    destruct reply as [e|response]; [repeat split|].
    destruct (response_error response); [repeat split|].
    destruct save_err; repeat split.
  - right. right. rewrite audit_state. repeat split.
  - right. right. rewrite retrieve_state. repeat split.
  - right. right.
    destruct (farm_state s privkey address publication found reply save_err)
      as [->|[items ->]]; repeat split.
Qed.

Lemma timers_inv_add s contact :
  timers_inv s -> timers_inv (_addPingInterval s contact).
Proof.
  unfold timers_inv, ping_timers, _addPingInterval. simpl.
  intros [Hact Htab]. split.
  - intros t Hin. apply in_app_or in Hin. destruct Hin as [Hin|[<-|[]]].
    + specialize (Hact t Hin). lia.
    + lia.
  - intros t Hin. apply in_values_set in Hin. destruct Hin as [->|Hin].
    + lia.
    + destruct (_pingSeeds s); [|contradiction].
      specialize (Htab t Hin). lia.
Qed.

Lemma timers_inv_remove s : timers_inv s -> timers_inv (_removePingInterval s).
Proof.
  intros [Hact Htab]. rewrite <- leave_state. split.
  - intros t Hin. apply intervals_after_leave in Hin.
    rewrite leave_state. unfold _removePingInterval.
    destruct (_pingSeeds s); simpl; now apply Hact.
  - rewrite leave_state. unfold _removePingInterval, ping_timers in *.
    destruct (_pingSeeds s) eqn:Htable; simpl;
      rewrite ?Htable; exact Htab.
Qed.

Lemma timers_inv_reachable s0 s :
  timers_inv s0 -> reachable s0 s -> timers_inv s.
Proof.
  intros H0 Hr. induction Hr as [|s s' _ IH Hstep]; [assumption|].
  destruct (step_timers s s' Hstep) as [[c ->]|[->|(Hi & Hn & Hp)]].
  - now apply timers_inv_add.
  - now apply timers_inv_remove.
  - unfold timers_inv, ping_timers in *. rewrite Hi, Hn, Hp. exact IH.
Qed.

Lemma timers_inv_new options node_id contact items :
  timers_inv (Network_new options node_id contact items).
Proof. split; intros t []. Qed.

(** X8. Two connects that call back for the same node ID, as two seed
    URIs naming one node make them, leave two timers running and one entry
    in the table: the second overwrites the first. The first timer is then
    out of reach: [leave] stops the second and the first keeps
    pinging. *)
Theorem reconnect_leaks_timer options node_id contact items s c1 c2 :
  reachable (Network_new options node_id contact items) s ->
  nodeID c1 = nodeID c2 ->
  let s2 := connected (connected s c1 None) c2 None in
  In (next_interval s) (intervals s2) /\
  In (S (next_interval s)) (intervals s2) /\
  ~ In (next_interval s) (ping_timers s2) /\
  In (next_interval s) (intervals (snd (leave s2))) /\
  ~ In (S (next_interval s)) (intervals (snd (leave s2))).
Proof.
  intros Hr Hid s2.
  destruct (timers_inv_reachable _ s (timers_inv_new _ _ _ _) Hr)
    as [Hact Htab].
  assert (H1 : In (next_interval s) (intervals s2)).
  { subst s2. simpl. rewrite !in_app_iff. simpl. auto. }
  assert (H2 : In (S (next_interval s)) (intervals s2)).
  { subst s2. simpl. rewrite !in_app_iff. simpl. auto. }
  assert (Htable : ping_timers s2
                   = JsObject.values
                       (JsObject.set (nodeID c2) (S (next_interval s))
                          match _pingSeeds s with
                          | Some t => t
                          | None => JsObject.empty
                          end)).
  { subst s2. unfold ping_timers. simpl. rewrite Hid. now rewrite set_set. }
  assert (H3 : ~ In (next_interval s) (ping_timers s2)).
  { rewrite Htable. intros Hin. apply in_values_set in Hin.
    destruct Hin as [Heq|Hin]; [lia|].
    unfold ping_timers in Htab.
    destruct (_pingSeeds s); [|contradiction].
    specialize (Htab _ Hin). lia. }
  repeat split; try assumption.
  - apply intervals_after_leave. split; assumption.
  - intros Hin. apply intervals_after_leave in Hin. destruct Hin as [_ Hn].
    apply Hn. subst s2. unfold ping_timers. simpl.
    change (In (S (next_interval s))
              (JsObject.values
                 (JsObject.set (nodeID c2) (S (next_interval s))
                    (JsObject.set (nodeID c1) (next_interval s)
                       match _pingSeeds s with
                       | Some t => t
                       | None => JsObject.empty
                       end)))).
    generalize (JsObject.set (nodeID c1) (next_interval s)
                  match _pingSeeds s with
                  | Some t => t
                  | None => JsObject.empty
                  end).
    intros o. induction o as [|[k v] r IH]; simpl.
    + now left.
    + destruct (String.eqb (nodeID c2) k); simpl; auto.
Qed.

(** X9. Removing the ping interval of a contact right after it was set up
    leaves the running timers as they were before; the entry stays in the
    table. Before any interval was set up, the same call throws a
    TypeError, the table being undefined. *)
Theorem add_remove_ping_interval options node_id contact items s c :
  reachable (Network_new options node_id contact items) s ->
  (exists s',
     _removePingInterval_for (_addPingInterval s c) c = inr s' /\
     intervals s' = intervals s /\
     _pingSeeds s' = _pingSeeds (_addPingInterval s c) /\
     JsObject.get (nodeID c) match _pingSeeds s' with
                             | Some t => t
                             | None => JsObject.empty
                             end = Some (next_interval s)) /\
  (_pingSeeds s = None -> _removePingInterval_for s c = inl TypeError).
Proof.
  intros Hr.
  destruct (timers_inv_reachable _ s (timers_inv_new _ _ _ _) Hr)
    as [Hact _].
  split.
  - unfold _removePingInterval_for, _addPingInterval. simpl.
    rewrite JsObjectFacts.get_set_same. eexists. split; [reflexivity|].
    simpl. split; [|split; [reflexivity|apply JsObjectFacts.get_set_same]].
    unfold clearInterval. rewrite filter_app. simpl.
    rewrite Nat.eqb_refl. simpl. rewrite app_nil_r.
    clear -Hact. induction (intervals s) as [|t r IH]; simpl; [reflexivity|].
    assert (Ht : Nat.eqb t (next_interval s) = false).
    { apply Nat.eqb_neq. specialize (Hact t (or_introl eq_refl)). lia. }
    rewrite Ht. simpl. f_equal. apply IH.
    intros t' Hin. apply Hact. now right.
  - intros Hnone. unfold _removePingInterval_for. now rewrite Hnone.
Qed.

End LifeCycleMore.

(** ** Storing, retrieving and auditing *)

Section StorageMore.
Context {E : Externals} {K : Signer} {O : ContractOps}.
Implicit Types (s : Network) (item : StorageItem) (p : Pending).

Lemma in_add_key_inv k x ks :
  In x (JsObject.add_key k ks) -> x = k \/ In x ks.
Proof.
  induction ks as [|k' r IH]; simpl.
  - intros [<-|[]]. now left.
  - destruct (String.eqb k k') eqn:Hk; simpl.
    + intros [<-|Hin]; auto.
    + intros [<-|Hin]; auto. destruct (IH Hin); auto.
Qed.

Lemma add_key_present k ks : In k ks -> JsObject.add_key k ks = ks.
Proof.
  induction ks as [|k' r IH]; simpl; [contradiction|].
  destruct (String.eqb k k') eqn:Hk.
  - apply String.eqb_eq in Hk. now subst.
  - intros [Heq|Hin].
    + apply String.eqb_neq in Hk. congruence.
    + now rewrite IH.
Qed.

Lemma add_key_absent k ks :
  ~ In k ks -> JsObject.add_key k ks = (ks ++ [k])%list.
Proof.
  induction ks as [|k' r IH]; simpl; [reflexivity|].
  intros Hnot. destruct (String.eqb k k') eqn:Hk.
  - apply String.eqb_eq in Hk. subst. elim Hnot. now left.
  - rewrite IH; [reflexivity|]. intros Hin. apply Hnot. now right.
Qed.

Lemma NoDup_add_key k ks : NoDup ks -> NoDup (JsObject.add_key k ks).
Proof.
  intros Hnd. destruct (in_dec string_dec k ks) as [Hin|Hnot].
  - now rewrite add_key_present.
  - rewrite add_key_absent by assumption.
    apply NoDup_app; try assumption.
    + repeat constructor. intros [].
    + intros x Hx [<-|[]]. contradiction.
Qed.

Lemma hd_add_key k ks f0 :
  hd_error ks = Some f0 -> hd_error (JsObject.add_key k ks) = Some f0.
Proof.
  destruct ks as [|k' r]; simpl; [discriminate|].
  intros [= ->]. destruct (String.eqb k f0) eqn:Hk; simpl; [|reflexivity].
  apply String.eqb_eq in Hk. now subst.
Qed.

Lemma pick_farmer_none nodes farmerID :
  (forall n, In n nodes -> Some (nodeID n) <> farmerID) ->
  pick_farmer nodes farmerID = None.
Proof.
  unfold pick_farmer. destruct farmerID as [fid|]; [|reflexivity].
  induction nodes as [|n r IH]; simpl; [reflexivity|].
  intros Hnone. destruct (String.eqb (nodeID n) fid) eqn:Hn.
  - apply String.eqb_eq in Hn. elim (Hnone n); [now left|congruence].
  - apply IH. intros n' Hin. apply Hnone. now right.
Qed.

Lemma encode_nonempty (data : list byte) :
  data <> [] -> String.eqb (Hex.encode data) "" = false.
Proof. destruct data as [|b r]; [congruence|reflexivity]. Qed.

(** [store], with the hex copy of the buffer resolved. *)
Lemma store_eq s data duration t1 t2 entropy :
  store s data duration t1 t2 entropy
  = (inr (Contract_DEFAULTS_type,
          pending_contract (pending_of s data duration t1 t2 entropy)),
     with_pendingContracts s
       (JsObject.set (rmd160sha256 data)
          (pending_of s data duration t1 t2 entropy)
          (_pendingContracts s))).
Proof. unfold store. now rewrite HexFacts.decode_encode. Qed.

(** X10. A retrieval whose farmer answers with the hex form of a shard
    calls back with exactly the bytes of that shard, and leaves the
    instance alone, unless the shard is empty: the empty string being
    falsy, an empty shard comes back as the invalid-shard error. *)
Theorem retrieve_returns_shard s h nodes item farmer data :
  Manager_load (manager s) h = Some item ->
  pick_farmer nodes (hd_error (JsObject.keys (contracts item))) = Some farmer ->
  retrieve s h (Ok nodes) (Ok (shard_response (Hex.encode data)))
  = (match data with
     | [] => Fail InvalidShardReturned
     | _ :: _ => Done data
     end,
     [(farmer, RETRIEVE h (_contact s))], s).
Proof.
  intros Hload Hpick. unfold retrieve. rewrite Hload, Hpick.
  unfold retrieve_response, shard_response. simpl.
  destruct data as [|b r]; [reflexivity|].
  rewrite encode_nonempty by discriminate.
  now rewrite HexFacts.decode_encode.
Qed.

(** X11. When the router's answer holds no node with the ID of the first
    contract holder, and always when the item has no contract at all,
    [audit] and [retrieve] call back with the could-not-find error and send
    nothing. *)
Theorem no_farmer_no_message s h nodes reply item :
  Manager_load (manager s) h = Some item ->
  (forall n, In n nodes ->
     Some (nodeID n) <> hd_error (JsObject.keys (contracts item))) ->
  audit s h (Ok nodes) reply = (Fail CouldNotFindTheFarmer, [], s) /\
  retrieve s h (Ok nodes) reply = (Fail CouldNotFindTheFarmer, [], s).
Proof.
  intros Hload Hnone. unfold audit, retrieve.
  now rewrite Hload, (pick_farmer_none _ _ Hnone).
Qed.

Lemma retrieve_sent s h found reply :
  snd (fst (retrieve s h found reply)) = [] \/
  exists item farmer,
    Manager_load (manager s) h = Some item /\
    hd_error (JsObject.keys (contracts item)) = Some (nodeID farmer) /\
    snd (fst (retrieve s h found reply)) = [(farmer, RETRIEVE h (_contact s))].
Proof.
  unfold retrieve.
  destruct (Manager_load (manager s) h) as [item|]; [|now left].
  destruct found as [e|nodes]; [now left|].
  destruct (pick_farmer nodes _) as [farmer|] eqn:Hpick; [|now left].
  right. exists item, farmer. apply pick_farmer_id in Hpick. auto.
Qed.

(** X12. Whatever [audit] and [retrieve] send goes to a contact whose node
    ID is the first key of the item's contracts, and carries the hash that
    was asked for: no other holder of the shard is ever addressed. *)
Theorem requests_go_to_first_holder s h found reply m :
  In m (snd (fst (audit s h found reply))) \/
  In m (snd (fst (retrieve s h found reply))) ->
  exists item,
    Manager_load (manager s) h = Some item /\
    hd_error (JsObject.keys (contracts item)) = Some (nodeID (fst m)) /\
    (snd m = RETRIEVE h (_contact s) \/
     exists challenge, snd m = AUDIT h challenge (_contact s)).
Proof.
  intros [Hin|Hin].
  - destruct (audit_sent s h found reply)
      as [Hnil|(item & farmer & record & Hl & Hk & _ & Heq)].
    + rewrite Hnil in Hin. contradiction.
    + rewrite Heq in Hin. simpl in Hin. destruct Hin as [<-|[]].
      exists item. simpl. eauto.
  - destruct (retrieve_sent s h found reply)
      as [Hnil|(item & farmer & Hl & Hk & Heq)].
    + rewrite Hnil in Hin. contradiction.
    + rewrite Heq in Hin. simpl in Hin. destruct Hin as [<-|[]].
      exists item. simpl. eauto.
Qed.

Lemma audit_eq s h nodes reply item farmer record :
  Manager_load (manager s) h = Some item ->
  pick_farmer nodes (hd_error (JsObject.keys (contracts item))) = Some farmer ->
  JsObject.get (nodeID farmer) (item_challenges item) = Some record ->
  audit s h (Ok nodes) reply
  = (audit_response record reply,
     [(farmer, AUDIT h (hd_error (challenges record)) (_contact s))], s).
Proof.
  intros Hload Hpick Hget. unfold audit. now rewrite Hload, Hpick, Hget.
Qed.

(** The instance after [store] and the continuation, for a shard the
    manager did not hold. *)
Lemma store_then_consign s data duration t1 t2 entropy farmer :
  Manager_load (manager s) (rmd160sha256 data) = None ->
  let h := rmd160sha256 data in
  let p := pending_of s data duration t1 t2 entropy in
  let s1 := snd (store s data duration t1 t2 entropy) in
  JsObject.get h (_pendingContracts s1) = Some p /\
  consign s1 p farmer (Ok ack_response) None
  = (Done h,
     [(farmer, CONSIGN h (Hex.encode data)
                 (getPublicRecord (Audit_new 12 data entropy)) (_contact s))],
     with_manager s1
       (JsObject.set h (record_farmer (StorageItem_new h) p farmer)
          (manager s))).
Proof.
  intros Hnone. cbv zeta. rewrite store_eq. simpl.
  split; [apply JsObjectFacts.get_set_same|].
  unfold consign, Manager_load in *. simpl. now rewrite Hnone.
Qed.

(** X13. Store, consign, retrieve: after [store] of a non-empty shard the
    manager did not hold, and the continuation run for a farmer that
    acknowledges, a [retrieve] of the shard's hash asks that farmer; given
    back the hex string that CONSIGN carried, it calls back with exactly the
    data stored. *)
Theorem store_consign_retrieve s data duration t1 t2 entropy farmer nodes f :
  data <> [] ->
  Manager_load (manager s) (rmd160sha256 data) = None ->
  pick_farmer nodes (Some (nodeID farmer)) = Some f ->
  let h := rmd160sha256 data in
  let s1 := snd (store s data duration t1 t2 entropy) in
  exists p shard_hex tree,
    JsObject.get h (_pendingContracts s1) = Some p /\
    fst (consign s1 p farmer (Ok ack_response) None)
    = (Done h, [(farmer, CONSIGN h shard_hex tree (_contact s))]) /\
    retrieve (snd (consign s1 p farmer (Ok ack_response) None)) h
      (Ok nodes) (Ok (shard_response shard_hex))
    = (Done data, [(f, RETRIEVE h (_contact s))],
       snd (consign s1 p farmer (Ok ack_response) None)).
Proof.
  intros Hdata Hnone Hpick h s1.
  destruct (store_then_consign s data duration t1 t2 entropy farmer Hnone)
    as [Hget Hconsign].
  fold h in Hget, Hconsign. fold s1 in Hget, Hconsign.
  eexists _, _, _. split; [exact Hget|].
  rewrite Hconsign. split; [reflexivity|].
  cbn [snd].
  rewrite (retrieve_returns_shard _ h nodes
             (record_farmer (StorageItem_new h)
                (pending_of s data duration t1 t2 entropy) farmer) f data).
  - destruct data; [congruence|]. subst s1. rewrite store_eq. reflexivity.
  - unfold Manager_load. simpl. apply JsObjectFacts.get_set_same.
  - simpl. exact Hpick.
Qed.

(** X14. Store, consign, audit: after the same two steps, an [audit] of
    the shard's hash sends that farmer the first challenge of the private
    record of the tree built by [store], and its verdict is the one the
    verifier gives the returned proof against the root and depth of that
    record. *)
Theorem store_consign_audit s data duration t1 t2 entropy farmer nodes f
    reply :
  Manager_load (manager s) (rmd160sha256 data) = None ->
  pick_farmer nodes (Some (nodeID farmer)) = Some f ->
  let h := rmd160sha256 data in
  let s1 := snd (store s data duration t1 t2 entropy) in
  let record := getPrivateRecord (Audit_new 12 data entropy) in
  exists p,
    JsObject.get h (_pendingContracts s1) = Some p /\
    fst (fst (consign s1 p farmer (Ok ack_response) None)) = Done h /\
    audit (snd (consign s1 p farmer (Ok ack_response) None)) h
      (Ok nodes) reply
    = (audit_response record reply,
       [(f, AUDIT h (hd_error (challenges record)) (_contact s))],
       snd (consign s1 p farmer (Ok ack_response) None)).
Proof.
  intros Hnone Hpick h s1 record.
  destruct (store_then_consign s data duration t1 t2 entropy farmer Hnone)
    as [Hget Hconsign].
  fold h in Hget, Hconsign. fold s1 in Hget, Hconsign.
  eexists. split; [exact Hget|].
  rewrite Hconsign. split; [reflexivity|].
  cbn [snd].
  rewrite (audit_eq _ h nodes reply
             (record_farmer (StorageItem_new h)
                (pending_of s data duration t1 t2 entropy) farmer) f record).
  - subst s1. rewrite store_eq. reflexivity.
  - unfold Manager_load. simpl. apply JsObjectFacts.get_set_same.
  - simpl. exact Hpick.
  - apply pick_farmer_id in Hpick. injection Hpick as Hid.
    simpl. now rewrite <- Hid, String.eqb_refl.
Qed.

(** *** The tables of the instance *)

Lemma verify_cache_cases (cache : JsObject.t PublicKey) now m c :
  snd (_verifyMessage cache now m c) = cache \/
  exists pk,
    Address_fromPublicKeyHash (nodeID c) <> None /\
    snd (_verifyMessage cache now m c) = JsObject.set (nodeID c) pk cache.
Proof.
  rewrite _verifyMessage_eq.
  destruct (expired now m); [now left|].
  destruct (Address_fromPublicKeyHash _) as [addr|]; [|now left].
  destruct (recovered_pubkey m) as [pk|]; [|now left].
  right. exists pk. split; [discriminate|].
  destruct (list_eq_dec _ addr (hash160 pk));
    [destruct (ecdsa_verify_recovered m pk)|]; reflexivity.
Qed.

(** Which events touch the pending table and the key cache. *)
Lemma step_tables s s' :
  step s s' ->
  _keypair_nodeID s' = _keypair_nodeID s /\
  (_pendingContracts s' = _pendingContracts s \/
   exists data duration t1 t2 entropy,
     _pendingContracts s'
     = JsObject.set (rmd160sha256 data)
         (pending_of s data duration t1 t2 entropy) (_pendingContracts s)) /\
  (_pubkeys s' = _pubkeys s \/
   exists now m c,
     _pubkeys s' = snd (_verifyMessage (_pubkeys s) now m c)).
Proof.
  destruct 1 as [s|s|s contact err _|s now m c|s data d t1 t2 en
                |s h p f reply save_err _|s h found reply|s h found reply
                |s privkey address publication found reply save_err _].
  - destruct (fst (join s)) as [[]|e|x] eqn:Hj.
    + destruct (join_done s Hj)
        as (cs & _ & _ & _ & _ & _ & _ & _ & _ & _ & _ & _ & -> & -> & -> & _).
      auto.
    + rewrite join_not_done by congruence. auto.
    + rewrite join_not_done by congruence. auto.
  - rewrite leave_state. unfold _removePingInterval.
    destruct (_pingSeeds s); simpl; auto.
  - destruct err; simpl; auto.
  - simpl. split; [reflexivity|]. split; [now left|]. right. eauto.
  - rewrite store_eq. simpl. split; [reflexivity|]. split; [|now left].
    right. eauto 6.
  - unfold consign. destruct reply as [e|response]; simpl; auto.
    destruct (response_error response); simpl; auto.
    destruct save_err; simpl; auto.
  - rewrite audit_state. auto.
  - rewrite retrieve_state. auto.
  - destruct (farm_state s privkey address publication found reply save_err)
      as [->|[items ->]]; simpl; auto.
Qed.

(** X15. In every state an instance reaches, the pending table has one
    entry per shard hash at most, and each entry is filed under the hash of
    the very data it holds, with a contract of that hash, that size, this
    renter and twelve audits. *)
Theorem pending_one_per_shard options node_id contact items s :
  reachable (Network_new options node_id contact items) s ->
  NoDup (JsObject.keys (_pendingContracts s)) /\ pending_inv s.
Proof.
  intros Hr. induction Hr as [|s s' _ [IHnd IHinv] Hstep].
  - split; [constructor|]. intros h p Hget. discriminate Hget.
  - destruct (step_tables s s' Hstep)
      as (Hkey & [Hp|(data & d & t1 & t2 & en & Hp)] & _).
    + unfold pending_inv. rewrite Hp, Hkey. auto.
    + rewrite Hp. split.
      * rewrite JsObjectFacts.keys_set. now apply NoDup_add_key.
      * intros h p. rewrite Hp.
        destruct (string_dec (rmd160sha256 data) h) as [<-|Hne].
        -- rewrite JsObjectFacts.get_set_same. intros [= <-].
           simpl. rewrite Hkey. repeat split.
        -- rewrite JsObjectFacts.get_set_other by assumption.
           intros Hget. rewrite Hkey. now apply IHinv.
Qed.

(** X16. Storing the same bytes again replaces the pending entry of the
    first call instead of adding one: the table keeps its keys, the entry
    under the shard hash is the second call's, with its own times and audit
    tree, and the entries of other shards stay. *)
Theorem store_again_replaces s data d t1 t2 en d' t1' t2' en' :
  let h := rmd160sha256 data in
  let s1 := snd (store s data d t1 t2 en) in
  let s2 := snd (store s1 data d' t1' t2' en') in
  JsObject.keys (_pendingContracts s2) = JsObject.keys (_pendingContracts s1) /\
  JsObject.get h (_pendingContracts s2)
  = Some (pending_of s data d' t1' t2' en') /\
  (forall h', h' <> h ->
     JsObject.get h' (_pendingContracts s2)
     = JsObject.get h' (_pendingContracts s)) /\
  manager s2 = manager s.
Proof.
  cbv zeta. rewrite !store_eq. simpl. rewrite set_set.
  split; [now rewrite !JsObjectFacts.keys_set|].
  split; [|split; [|reflexivity]].
  - apply JsObjectFacts.get_set_same.
  - intros h' Hne. apply JsObjectFacts.get_set_other. congruence.
Qed.

Lemma consign_acked s p farmer response :
  response_error response = None ->
  consign s p farmer (Ok response) None
  = (Done (pending_shardHash p),
     [(farmer, CONSIGN (data_hash (pending_contract p))
                 (Hex.encode (pending_data p))
                 (getPublicRecord (pending_audit p)) (_contact s))],
     with_manager s (Manager_save (manager s) (consigned_item s p farmer))).
Proof. intros Hok. unfold consign, consigned_item. now rewrite Hok. Qed.

(** X17. The continuation sends one CONSIGN, to the farmer that offered,
    in every case; it calls back with the shard hash exactly when the farmer
    answered without an error and the save went through; and in every
    other case nothing is saved: the instance is as it was. *)
Theorem consign_saves_only_on_ack s p farmer reply save_err :
  snd (fst (consign s p farmer reply save_err))
  = [(farmer, CONSIGN (data_hash (pending_contract p))
                (Hex.encode (pending_data p))
                (getPublicRecord (pending_audit p)) (_contact s))] /\
  (fst (fst (consign s p farmer reply save_err)) = Done (pending_shardHash p)
   <-> (exists response,
          reply = Ok response /\ response_error response = None) /\
       save_err = None) /\
  ((forall shard, fst (fst (consign s p farmer reply save_err)) <> Done shard)
   -> snd (consign s p farmer reply save_err) = s).
Proof.
  unfold consign.
  destruct reply as [e|response].
  { simpl. split; [reflexivity|]. split; [|reflexivity].
    split; [discriminate|]. now intros [(r & Hr & _) _]. }
  destruct (response_error response) eqn:Herr.
  { simpl. split; [reflexivity|]. split; [|reflexivity].
    split; [discriminate|]. intros [(r & [= <-] & Hr) _]. congruence. }
  destruct save_err.
  { simpl. split; [reflexivity|]. split; [|reflexivity].
    split; [discriminate|]. now intros [_ Hs]. }
  simpl. split; [reflexivity|]. split.
  - split; [|reflexivity]. intros _. split; [|reflexivity]. now exists response.
  - intros Hnever. now elim (Hnever (pending_shardHash p)).
Qed.

Lemma record_farmer_twice item p farmer :
  record_farmer (record_farmer item p farmer) p farmer
  = record_farmer item p farmer.
Proof. unfold record_farmer. simpl. now rewrite !set_set. Qed.

(** X18. A duplicate CONSIGN is idempotent: running the continuation a
    second time for the same farmer, on an instance whose items are filed
    under their own hashes, leaves the manager exactly as the first run
    left it. *)
Theorem consign_twice_is_once s p farmer r r' :
  filed_inv s ->
  response_error r = None ->
  response_error r' = None ->
  let s1 := snd (consign s p farmer (Ok r) None) in
  consign s1 p farmer (Ok r') None
  = (Done (pending_shardHash p), snd (fst (consign s p farmer (Ok r) None)),
     s1).
Proof.
  intros Hinv Hr Hr'. cbv zeta.
  rewrite (consign_acked s p farmer r Hr). cbn [fst snd].
  rewrite (consign_acked _ p farmer r' Hr'). cbn [_contact with_manager].
  pose proof (consigned_item_hash s p farmer Hinv) as Hh.
  assert (Hitem : consigned_item
                    (with_manager s
                       (Manager_save (manager s) (consigned_item s p farmer)))
                    p farmer
                  = consigned_item s p farmer).
  { unfold consigned_item at 1. unfold Manager_load.
    cbn [manager with_manager]. unfold Manager_save.
    rewrite Hh, JsObjectFacts.get_set_same.
    unfold consigned_item. apply record_farmer_twice. }
  rewrite Hitem. unfold Manager_save.
  cbn [manager with_manager]. rewrite set_set. reflexivity.
Qed.

(** X19. Recording one more farmer for a shard the manager already holds
    keeps what is recorded for every other farmer, in all four maps, and
    keeps the first holder first: the farmer that [audit] and [retrieve]
    address does not change. *)
Theorem consign_keeps_other_farmers s p farmer reply save_err shard sent s'
    item0 :
  consign s p farmer reply save_err = (Done shard, sent, s') ->
  Manager_load (manager s) (pending_shardHash p) = Some item0 ->
  exists item,
    Manager_load (manager s') (pending_shardHash p) = Some item /\
    (forall f, f <> nodeID farmer ->
       JsObject.get f (contracts item) = JsObject.get f (contracts item0) /\
       JsObject.get f (trees item) = JsObject.get f (trees item0) /\
       JsObject.get f (item_challenges item)
       = JsObject.get f (item_challenges item0) /\
       JsObject.get f (meta item) = JsObject.get f (meta item0)) /\
    (forall f0,
       hd_error (JsObject.keys (contracts item0)) = Some f0 ->
       hd_error (JsObject.keys (contracts item)) = Some f0).
Proof.
  intros Hc Hload.
  apply consign_done in Hc. destruct Hc as [_ ->].
  cbn [manager with_manager]. unfold Manager_save.
  assert (Hh : hash (consigned_item s p farmer) = hash item0).
  { unfold consigned_item. now rewrite Hload. }
  rewrite Hh.
  destruct (string_dec (hash item0) (pending_shardHash p)) as [Heq|Hne].
  - exists (consigned_item s p farmer). split.
    { unfold Manager_load. rewrite Heq. apply JsObjectFacts.get_set_same. }
    unfold consigned_item. rewrite Hload. unfold record_farmer. simpl. split.
    + intros f Hf.
      repeat split; apply JsObjectFacts.get_set_other; congruence.
    + intros f0 Hf0. rewrite JsObjectFacts.keys_set. now apply hd_add_key.
  - exists item0. split.
    { unfold Manager_load in *.
      now rewrite JsObjectFacts.get_set_other by assumption. }
    split; [now intros f Hf|now intros f0 Hf0].
Qed.

Lemma address_wellformed k :
  Address_fromPublicKeyHash k <> None ->
  exists bytes, Hex.decode k = Some bytes /\ List.length bytes = 20%nat.
Proof.
  unfold Address_fromPublicKeyHash.
  destruct (Hex.decode k) as [bytes|]; [|congruence].
  destruct (Nat.eqb (List.length bytes) 20) eqn:Hlen; [|congruence].
  intros _. exists bytes. split; [reflexivity|now apply Nat.eqb_eq].
Qed.

(** X20. Every key of the public-key cache is the hex form of exactly 20
    bytes, in every state an instance reaches: whatever the hook is fed, it
    files a key under a contact's node ID only after an address was made of
    that ID. *)
Theorem pubkeys_keys_wellformed options node_id contact items s :
  reachable (Network_new options node_id contact items) s ->
  forall k,
    In k (JsObject.keys (_pubkeys s)) ->
    exists bytes, Hex.decode k = Some bytes /\ List.length bytes = 20%nat.
Proof.
  intros Hr.
  assert (Hinv : pubkeys_inv s).
  { induction Hr as [|s s' _ IH Hstep]; [intros k []|].
    destruct (step_tables s s' Hstep) as (_ & _ & [Hp|(now & m & c & Hp)]).
    - unfold pubkeys_inv. now rewrite Hp.
    - unfold pubkeys_inv. rewrite Hp.
      destruct (verify_cache_cases (_pubkeys s) now m c)
        as [->|(pk & Haddr & ->)]; [exact IH|].
      rewrite JsObjectFacts.keys_set.
      intros k Hin. apply in_add_key_inv in Hin.
      destruct Hin as [->|Hin]; [assumption|now apply IH]. }
  intros k Hin. apply address_wellformed. now apply Hinv.
Qed.

End StorageMore.

(** ** When the hook throws *)

Section AuthEdges.
Context {E : Externals}.

(** X21. The hook throws, instead of calling back, exactly when the nonce
    is fresh (the expiry test does not fire, see [fresh_number]) and either
    the contact's node ID is not the hex form of 20 bytes or the signature
    recovers no key; the cache is then as it was. An expired nonce is
    rejected before either is looked at. *)
Theorem verify_throws_iff (cache : JsObject.t PublicKey) now m c :
  ((exists x, fst (_verifyMessage cache now m c) = Throw x) <->
   expired now m = false /\
   (Address_fromPublicKeyHash (nodeID c) = None \/
    recovered_pubkey m = None)) /\
  ((exists x, fst (_verifyMessage cache now m c) = Throw x) ->
   snd (_verifyMessage cache now m c) = cache).
Proof.
  rewrite _verifyMessage_eq.
  destruct (expired now m).
  { split; [|reflexivity]. split.
    - intros [x Hx]. discriminate Hx.
    - intros [Hfresh _]. discriminate Hfresh. }
  destruct (Address_fromPublicKeyHash _) as [addr|].
  2:{ split; [|reflexivity]. split; [auto|]. intros _. now exists TypeError. }
  destruct (recovered_pubkey m) as [pk|].
  2:{ split; [|reflexivity]. split; [auto|]. intros _. now exists TypeError. }
  destruct (list_eq_dec _ addr (hash160 pk));
    [destruct (ecdsa_verify_recovered m pk)|];
    (split; [split|]; [intros [x Hx]; discriminate Hx
                      |intros [_ [Hn|Hn]]; discriminate Hn
                      |intros [x Hx]; discriminate Hx]).
Qed.

End AuthEdges.

(** ** Further runs on the sample instance *)

Section MoreRuns.
Import Sample SampleKeys.
#[local] Existing Instance Sample.externals.
#[local] Existing Instance SampleKeys.signer.
#[local] Existing Instance SampleKeys.ops.

Lemma farmer_key_signs : signs_for farmer_key farmer_key.
Proof.
  intros target. exists farmer_id. repeat split.
Qed.

Lemma renter_with_inv cs : store_inv (renter_with cs).
Proof.
  intros h item. unfold renter_with, Network_new. simpl.
  destruct (String.eqb_spec h "h") as [->|Hne]; [|discriminate].
  intros [= <-]. repeat split.
Qed.

Lemma sign_verify_round_trip_witness :
  fst (_verifyMessage [] 1700000010000
         (_signMessage farmer_key 1700000000000 (response "abc"))
         farmer_contact) = Done tt /\
  fst (_verifyMessage [] 1700000020000
         (_signMessage farmer_key 1700000000000 (request 0 ""))
         farmer_contact) = Fail MessageSignatureExpired.
Proof.
  split.
  - exact (sign_verify_round_trip farmer_key farmer_key [] 1700000010000
             1700000000000 (response "abc") farmer_contact
             farmer_key_signs eq_refl).
  - exact (sign_verify_round_trip farmer_key farmer_key [] 1700000020000
             1700000000000 (request 0 "") farmer_contact
             farmer_key_signs eq_refl).
Defined.

Lemma verify_accepts_replay_witness :
  fst (_verifyMessage [] 1700000014000
         (request 1700000000000 farmer_id) farmer_contact) = Done tt /\
  fst (_verifyMessage [] 1600000000000
         (request 1700000000000 farmer_id) farmer_contact) = Done tt /\
  fst (_verifyMessage [] 1700000015001
         (request 1700000000000 farmer_id) farmer_contact) <> Done tt.
Proof.
  assert (Hfirst : fst (_verifyMessage [] 1700000010000
                          (request 1700000000000 farmer_id) farmer_contact)
                   = Done tt) by reflexivity.
  split; [|split].
  - apply (proj2 (verify_accepts_replay [] [] 1700000010000 1700000014000
                    (request 1700000000000 farmer_id) farmer_contact Hfirst)
             1700000000000 eq_refl).
    cbv. discriminate.
  - apply (proj2 (verify_accepts_replay [] [] 1700000010000 1600000000000
                    (request 1700000000000 farmer_id) farmer_contact Hfirst)
             1700000000000 eq_refl).
    cbv. discriminate.
  - intros Hacc.
    apply (proj2 (verify_accepts_replay [] [] 1700000010000 1700000015001
                    (request 1700000000000 farmer_id) farmer_contact Hfirst)
             1700000000000 eq_refl) in Hacc.
    cbv in Hacc. now apply Hacc.
Defined.

Lemma verify_same_target_witness :
  fst (_verifyMessage [] 9000000000000
         (request_as "abc" 91700000000000 farmer_id) farmer_contact)
  = Done tt /\
  fst (_verifyMessage [] 9000000000000
         (request_text "abc9" "1700000000000" farmer_id) farmer_contact)
  = Done tt.
Proof.
  split.
  - apply (verify_same_target [] [] 1700000010000 9000000000000
             (request_as "abc9" 1700000000000 farmer_id)
             (request_as "abc" 91700000000000 farmer_id) farmer_contact);
      reflexivity.
  - apply (verify_same_target [] [] 1700000010000 9000000000000
             (request_as "abc9" 1700000000000 farmer_id)
             (request_text "abc9" "1700000000000" farmer_id) farmer_contact);
      reflexivity.
Defined.

Lemma join_bad_seed_witness :
  let s := fresh {| seeds := [farmer_id; ""]; farmer := false |}
             other_id renter_contact in
  exists uri' y,
    In uri' (seeds (_options s)) /\
    _createContact uri' = inl y /\
    join s = (Throw y, s).
Proof.
  apply (join_bad_seed
           (fresh {| seeds := [farmer_id; ""]; farmer := false |}
              other_id renter_contact) "" TypeError).
  - right. left. reflexivity.
  - reflexivity.
Defined.

Lemma joined_is_reachable : reachable seeded (snd (join seeded)).
Proof. apply (reachable_step seeded seeded); constructor. Qed.

Lemma join_wires_once_witness :
  transport_hooks (snd (join seeded)) = join_hooks /\
  subscriptions (snd (join seeded)) = ["contract"] /\
  transport_hooks seeded = [].
Proof.
  split; [|split].
  - exact (proj1 (proj2 (join_wires_once
                           {| seeds := [farmer_id]; farmer := true |}
                           other_id renter_contact JsObject.empty
                           (snd (join seeded)) joined_is_reachable))).
  - exact (proj1 (proj2 (proj2 (join_wires_once
                           {| seeds := [farmer_id]; farmer := true |}
                           other_id renter_contact JsObject.empty
                           (snd (join seeded)) joined_is_reachable)))).
  - exact (proj1 (proj2 (join_wires_once
                           {| seeds := [farmer_id]; farmer := true |}
                           other_id renter_contact JsObject.empty
                           seeded (reachable_start _)))).
Defined.

Lemma leave_needs_join_witness :
  fst (leave seeded) = Throw TypeError /\
  fst (leave (snd (join seeded))) = Done tt.
Proof.
  split.
  - exact (leave_needs_join {| seeds := [farmer_id]; farmer := true |}
             other_id renter_contact JsObject.empty
             seeded (reachable_start _)).
  - exact (leave_needs_join {| seeds := [farmer_id]; farmer := true |}
             other_id renter_contact JsObject.empty
             (snd (join seeded)) joined_is_reachable).
Defined.

Lemma reconnect_leaks_timer_witness :
  let s2 := connected (connected (snd (join seeded)) farmer_contact None)
              farmer_contact None in
  intervals s2 = [0; 1]%nat /\
  In 0%nat (intervals (snd (leave s2))) /\
  ~ In 1%nat (intervals (snd (leave s2))).
Proof.
  cbv zeta. split; [reflexivity|].
  destruct (reconnect_leaks_timer
              {| seeds := [farmer_id]; farmer := true |}
              other_id renter_contact JsObject.empty
              (snd (join seeded)) farmer_contact farmer_contact
              joined_is_reachable eq_refl)
    as (_ & _ & _ & Hleak & Hcleared).
  split; [exact Hleak|exact Hcleared].
Defined.

Lemma add_remove_ping_interval_witness :
  exists s',
    _removePingInterval_for
      (_addPingInterval (snd (join seeded)) farmer_contact) farmer_contact
    = inr s' /\
    intervals s' = [].
Proof.
  destruct (proj1 (add_remove_ping_interval
                     {| seeds := [farmer_id]; farmer := true |}
                     other_id renter_contact JsObject.empty
                     (snd (join seeded)) farmer_contact joined_is_reachable))
    as (s' & Hremove & Hintervals & _).
  exists s'. split; [exact Hremove|exact Hintervals].
Defined.

Lemma retrieve_returns_shard_witness :
  retrieve (renter_with ["c0"]) "h" (Ok [farmer_contact])
    (Ok (shard_response "6869"))
  = (Done [x68; x69], [(farmer_contact, RETRIEVE "h" renter_contact)],
     renter_with ["c0"]) /\
  fst (fst (retrieve (renter_with ["c0"]) "h" (Ok [farmer_contact])
              (Ok (shard_response ""))))
  = Fail InvalidShardReturned.
Proof.
  split.
  - exact (retrieve_returns_shard (renter_with ["c0"]) "h" [farmer_contact]
             (item_with ["c0"]) farmer_contact [x68; x69] eq_refl eq_refl).
  - exact (f_equal (fun r => fst (fst r))
             (retrieve_returns_shard (renter_with ["c0"]) "h"
                [farmer_contact] (item_with ["c0"]) farmer_contact []
                eq_refl eq_refl)).
Defined.

Lemma no_farmer_no_message_witness :
  audit (renter_with ["c0"]) "h" (Ok [renter_contact]) (proof_reply "root")
  = (Fail CouldNotFindTheFarmer, [], renter_with ["c0"]) /\
  retrieve (renter_with ["c0"]) "h" (Ok []) (proof_reply "root")
  = (Fail CouldNotFindTheFarmer, [], renter_with ["c0"]).
Proof.
  split.
  - apply (no_farmer_no_message (renter_with ["c0"]) "h" [renter_contact]
             (proof_reply "root") (item_with ["c0"]) eq_refl).
    intros n [<-|[]]. discriminate.
  - apply (no_farmer_no_message (renter_with ["c0"]) "h" []
             (proof_reply "root") (item_with ["c0"]) eq_refl).
    intros n [].
Defined.

Lemma requests_go_to_first_holder_witness :
  exists item,
    Manager_load (manager (renter_with ["c0"])) "h" = Some item /\
    hd_error (JsObject.keys (contracts item)) = Some farmer_id.
Proof.
  destruct (requests_go_to_first_holder (renter_with ["c0"]) "h"
              (Ok [second_farmer; farmer_contact]) (proof_reply "root")
              (farmer_contact, AUDIT "h" (Some "c0") renter_contact)
              (or_introl (or_introl eq_refl)))
    as (item & Hload & Hfirst & _).
  exists item. split; [exact Hload|exact Hfirst].
Defined.

Lemma store_consign_retrieve_witness :
  let h := rmd160sha256 [x68; x69] in
  let s1 := snd (store seeded [x68; x69] "1h" 10 11 [x01; x02]) in
  exists p shard_hex tree,
    JsObject.get h (_pendingContracts s1) = Some p /\
    fst (consign s1 p farmer_contact (Ok ack_response) None)
    = (Done h, [(farmer_contact, CONSIGN h shard_hex tree (_contact seeded))])
    /\
    retrieve (snd (consign s1 p farmer_contact (Ok ack_response) None)) h
      (Ok [farmer_contact]) (Ok (shard_response shard_hex))
    = (Done [x68; x69],
       [(farmer_contact, RETRIEVE h (_contact seeded))],
       snd (consign s1 p farmer_contact (Ok ack_response) None)).
Proof.
  apply (store_consign_retrieve seeded [x68; x69] "1h" 10 11 [x01; x02]
           farmer_contact [farmer_contact] farmer_contact).
  - discriminate.
  - reflexivity.
  - reflexivity.
Defined.

Lemma store_consign_audit_witness :
  let h := rmd160sha256 [x68; x69] in
  let s1 := snd (store seeded [x68; x69] "1h" 10 11 [x01; x02]) in
  exists p,
    JsObject.get h (_pendingContracts s1) = Some p /\
    fst (fst (consign s1 p farmer_contact (Ok ack_response) None)) = Done h /\
    audit (snd (consign s1 p farmer_contact (Ok ack_response) None)) h
      (Ok [farmer_contact]) (proof_reply "root")
    = (Done true,
       [(farmer_contact, AUDIT h (Some "01") (_contact seeded))],
       snd (consign s1 p farmer_contact (Ok ack_response) None)).
Proof.
  apply (store_consign_audit seeded [x68; x69] "1h" 10 11 [x01; x02]
           farmer_contact [farmer_contact] farmer_contact
           (proof_reply "root")).
  - reflexivity.
  - reflexivity.
Defined.

Lemma pending_one_per_shard_witness :
  NoDup (JsObject.keys
           (_pendingContracts
              (snd (store (snd (store seeded [x68] "1h" 10 11 []))
                      [x68] "2h" 20 21 [])))).
Proof.
  apply (pending_one_per_shard {| seeds := [farmer_id]; farmer := true |}
           other_id renter_contact JsObject.empty).
  apply (reachable_step seeded (snd (store seeded [x68] "1h" 10 11 []))).
  - apply (reachable_step seeded seeded); constructor.
  - constructor.
Defined.

Lemma farmed_items_filed :
  filed_inv (snd (store farmed [x68] "1h" 10 11 [x01; x02])).
Proof.
  intros h item. cbn.
  destruct (String.eqb_spec h "68") as [->|Hne]; [|discriminate].
  now intros [= <-].
Qed.

Lemma consign_twice_is_once_witness :
  (let s1 := snd (consign seeded a_pending farmer_contact
                    (Ok ack_response) None) in
   consign s1 a_pending farmer_contact (Ok ack_response) None
   = (Done "h",
      snd (fst (consign seeded a_pending farmer_contact
                  (Ok ack_response) None)),
      s1)) /\
  snd (consign farmed_then_stored
         (pending_of farmed [x68] "1h" 10 11 [x01; x02])
         farmer_contact (Ok ack_response) None)
  = farmed_then_stored.
Proof.
  split.
  - apply (consign_twice_is_once seeded a_pending farmer_contact
             ack_response ack_response).
    + intros h item Hget. discriminate Hget.
    + reflexivity.
    + reflexivity.
  - exact (f_equal snd
             (consign_twice_is_once
                (snd (store farmed [x68] "1h" 10 11 [x01; x02]))
                (pending_of farmed [x68] "1h" 10 11 [x01; x02])
                farmer_contact ack_response ack_response
                farmed_items_filed eq_refl eq_refl)).
Defined.

Lemma consign_keeps_other_farmers_witness :
  (exists item,
     Manager_load
       (manager (snd (consign (renter_with ["c0"]) a_pending second_farmer
                        (Ok ack_response) None))) "h" = Some item /\
     hd_error (JsObject.keys (contracts item)) = Some farmer_id /\
     JsObject.get farmer_id (item_challenges item)
     = Some {| challenges := ["c0"]; root := "root"; depth := 4 |}) /\
  (exists item,
     Manager_load (manager farmed_then_stored) "68" = Some item /\
     hd_error (JsObject.keys (contracts item))
     = Some (nodeID remote_renter) /\
     JsObject.get (nodeID remote_renter) (trees item) = None).
Proof.
  split.
  - destruct (consign_keeps_other_farmers (renter_with ["c0"]) a_pending
                second_farmer (Ok ack_response) None _ _ _ (item_with ["c0"])
                eq_refl eq_refl)
      as (item & Hload & Hkept & Hfirst).
    exists item. split; [exact Hload|]. split.
    + apply Hfirst. reflexivity.
    + destruct (Hkept farmer_id) as (_ & _ & Hchallenges & _).
      * discriminate.
      * exact Hchallenges.
  - destruct (consign_keeps_other_farmers
                (snd (store farmed [x68] "1h" 10 11 [x01; x02]))
                (pending_of farmed [x68] "1h" 10 11 [x01; x02])
                farmer_contact (Ok ack_response) None _ _ _
                (farmed_item (snd (join seeded))
                   (mkContract (nodeID remote_renter) 1 "68" 0 (Num 3600000)
                      12 (Some other_id) (Some "payment address")
                      (Some (Hex.encode farmer_key)))
                   remote_renter)
                eq_refl eq_refl)
      as (item & Hload & Hkept & Hfirst).
    exists item. split; [exact Hload|]. split.
    + apply Hfirst. reflexivity.
    + destruct (Hkept (nodeID remote_renter)) as (_ & Htrees & _).
      * discriminate.
      * rewrite Htrees. reflexivity.
Defined.

Lemma pubkeys_keys_wellformed_witness :
  In farmer_id
    (JsObject.keys
       (_pubkeys
          (with_pubkeys seeded
             (snd (_verifyMessage (_pubkeys seeded) 1700000010000
                     (request 1700000000000 farmer_id) farmer_contact))))) /\
  exists bytes,
    Hex.decode farmer_id = Some bytes /\ List.length bytes = 20%nat.
Proof.
  assert (Hin : In farmer_id
                  (JsObject.keys
                     (_pubkeys
                        (with_pubkeys seeded
                           (snd (_verifyMessage (_pubkeys seeded) 1700000010000
                                   (request 1700000000000 farmer_id)
                                   farmer_contact))))))
    by (left; reflexivity).
  split; [exact Hin|].
  apply (pubkeys_keys_wellformed {| seeds := [farmer_id]; farmer := true |}
           other_id renter_contact JsObject.empty _
           (reachable_step seeded seeded _
              (reachable_start seeded)
              (step_verify seeded 1700000010000
                 (request 1700000000000 farmer_id) farmer_contact))
           farmer_id Hin).
Defined.

End MoreRuns.
